(** * MediaWriter helper: partition table and FAT32 overlay formatter

    A shallow embedding of [src/helper/blockdevice.cpp] (class
    [BlockDevice]): the primary partition table reader and appender, the
    CHS codec, and the FAT32 overlay formatter, together with the
    properties of the natural-language specification that concern them.

    Conventions.
    - C++ fixed-width integers are values of [Z]; every conversion and
      every wrap-around of the source is written out with the functions
      of module [Cxx].
    - A byte is a [Z] in [0, 256); a buffer is a [list Z].
    - The host is little-endian (the only case in which the source's
      [quint32 number = qToLittleEndian(cluster)] is meaningful). *)

From Stdlib Require Import ZArith List Bool Lia.
Import ListNotations.
Local Open Scope Z_scope.

(** ** Machine integers *)

Module Cxx.

(** Conversion to [quint64] / [std::size_t]. *)
Definition u64 (x : Z) : Z := x mod 2 ^ 64.

(** Conversion to [quint32]. *)
Definition u32 (x : Z) : Z := x mod 2 ^ 32.

(** Conversion to [quint8] / storing into a [char] cell. *)
Definition u8 (x : Z) : Z := x mod 2 ^ 8.

(** Conversion to [int] (two's complement, 32 bits). *)
Definition i32 (x : Z) : Z := (x + 2 ^ 31) mod 2 ^ 32 - 2 ^ 31.

(** Conversion to [off_t] (two's complement, 64 bits). *)
Definition i64 (x : Z) : Z := (x + 2 ^ 63) mod 2 ^ 64 - 2 ^ 63.

(** [~x] on a [quint64]. *)
Definition not64 (x : Z) : Z := u64 (Z.lnot x).

(** The four bytes of a [quint32] in memory, least significant first. *)
Definition le32 (x : Z) : list Z :=
  [ u8 x; u8 (Z.shiftr x 8); u8 (Z.shiftr x 16); u8 (Z.shiftr x 24) ].

(** Reading four bytes back as a little-endian [quint32]. *)
Definition le32_decode (b : list Z) : Z :=
  nth 0 b 0 + Z.shiftl (nth 1 b 0) 8 + Z.shiftl (nth 2 b 0) 16
  + Z.shiftl (nth 3 b 0) 24.

End Cxx.
Import Cxx.

(** ** Constants of [blockdevice.h] *)

(** Modelled from the spec: the header [blockdevice.h] is not part of the
    sources; the sector size is "fixed at 512 bytes". *)
Definition SECTOR_SIZE : Z := 512.

(** Modelled from the spec: "A table holds at most 4 entries". *)
Definition MAX_PARTITIONS : Z := 4.

(** Modelled from the spec: a partition table entry is a "fixed 16-byte
    record". *)
Definition PARTITION_ENTRY_SIZE : Z := 16.

(** Constants local to [formatOverlayPartition]. *)
Definition RESERVED_SECTORS : Z := 32.
Definition NR_FATS : Z := 2.
Definition FIRST_CLUSTER : Z := 3.
Definition ranges : list Z := [260; 1024 * 8; 1024 * 16; 1024 * 32].
Definition fsinfoOffset : Z := 480.
Definition bootCodeSize : Z := 420.

Definition bootSign : list Z := [0x55; 0xaa].
Definition infoSector : list Z := [0x52; 0x52; 0x61; 0x41].
Definition fat : list Z :=
  [0xf8; 0xff; 0xff; 0x0f; 0xff; 0xff; 0xff; 0x0f; 0xf8; 0xff; 0xff; 0x0f].
Definition fatEof : list Z := [0xff; 0xff; 0xff; 0x0f].

(** [std::extent] of a byte array. *)
Definition extent (b : list Z) : Z := Z.of_nat (length b).

(** ** Layout derivation of the FAT32 overlay formatter *)

(** [qLowerBound] on a sorted range: the index of the first element that
    is not less than [value]. *)
Fixpoint qLowerBound (l : list Z) (value : Z) : Z :=
  match l with
  | [] => 0
  | x :: r => if x <? value then 1 + qLowerBound r value else 0
  end.

(** The lambdas of [formatOverlayPartition]. *)
Definition align (number alignment : Z) : Z :=
  Z.land (u64 (number + alignment - 1)) (not64 (u64 (alignment - 1))).

Definition getbyte (number i : Z) : Z :=
  u8 (Z.land (Z.shiftr (i32 number) (8 * i)) 0xff).

Definition divCeil (a b : Z) : Z :=
  i32 (Z.quot (i32 (i32 a + i32 b - 1)) (i32 b)).

(** Lines 159-162. *)
Definition sizeMb (size : Z) : Z := i32 (size / (1024 * 1024)).

Definition sectorsPerCluster (size : Z) : Z :=
  let found := qLowerBound ranges (sizeMb size) in
  if found =? 0 then 1 else i32 (found * 8).

Definition clusterSize (size : Z) : Z :=
  i32 (SECTOR_SIZE * sectorsPerCluster size).

(** Lines 165-168. *)
Definition numSectors (size : Z) : Z := size / SECTOR_SIZE.

Definition fatdata (size : Z) : Z := u64 (numSectors size - RESERVED_SECTORS).

Definition clusters (size : Z) : Z :=
  u64 (fatdata size * SECTOR_SIZE + NR_FATS * 8)
  / u64 (clusterSize size + NR_FATS * 4).

Definition fatlength (size : Z) : Z :=
  align (u64 (divCeil (u64 ((clusters size + 2) * 4)) SECTOR_SIZE))
        (u64 (sectorsPerCluster size)).

(** Lines 171-176. *)
Definition headerSize (size : Z) : Z :=
  u64 ((RESERVED_SECTORS + fatlength size * 2 + sectorsPerCluster size)
       * SECTOR_SIZE).

Definition maxFileSize (size : Z) : Z :=
  let m := Z.min (u64 (size - headerSize size)) 0xffffffff in
  align (u64 (m - SECTOR_SIZE - 1)) SECTOR_SIZE.

Definition fileZeros (size : Z) : Z := Z.min (maxFileSize size) (64 * 1024).

Definition nextFreeCluster (size : Z) : Z :=
  u64 (FIRST_CLUSTER + maxFileSize size / u64 (clusterSize size) + 1).

Definition numFreeClusters (size : Z) : Z :=
  u64 (u64 (size - headerSize size) / u64 (clusterSize size) + 1).

(** ** Timestamps *)

(** What the formatter reads from [QDateTime]: the millisecond clock and
    the broken-down current UTC time. *)
Record Clock := {
  msecsSinceEpoch : Z;
  second : Z; minute : Z; hour : Z;
  day : Z; month : Z; year : Z
}.

(** Lines 236-237: the locals [time] and [date]. *)
Definition fatTime (c : Clock) : Z :=
  u64 (i32 (Z.shiftr (second c + 1) 1 + Z.shiftl (minute c) 5
            + Z.shiftl (hour c) 11)).

Definition fatDate (c : Clock) : Z :=
  u64 (i32 (day c + Z.shiftl (month c) 5 + (year c - 1980))).

Definition tlo c := u8 (Z.land (fatTime c) 0xff).
Definition thi c := u8 (Z.shiftr (fatTime c) 8).
Definition dlo c := u8 (Z.land (fatDate c) 0xff).
Definition dhi c := u8 (Z.shiftr (fatDate c) 8).

Definition volumeId (c : Clock) : Z := u32 (Z.land (msecsSinceEpoch c) 0xffffffff).

(** ** Byte templates of the formatter *)

Definition fsinfo (size : Z) : list Z :=
  let fc := getbyte (numFreeClusters size) in
  let nc := getbyte (nextFreeCluster size) in
  [ 0x72; 0x72; 0x41; 0x61;
    fc 0; fc 1; fc 2; fc 3;
    nc 0; nc 1; nc 2; nc 3 ].

Definition bootSector (size : Z) (c : Clock) : list Z :=
  let t := getbyte (numSectors size) in
  let f := getbyte (fatlength size) in
  let u := getbyte (volumeId c) in
  let clsz := u8 (sectorsPerCluster size) in
  [ 0xeb; 0x58; 0x90; 0x6d; 0x6b; 0x66; 0x73;
    0x2e; 0x66; 0x61; 0x74; 0x00; 0x02; clsz; 0x20; 0x00; 0x02; 0x00; 0x00;
    0x00; 0x00; 0xf8; 0x00; 0x00; 0x3e; 0x00; 0xf7; 0x00; 0x00; 0x00; 0x00;
    0x00; t 0; t 1; t 2; t 3; f 0; f 1; f 2; f 3; 0x00; 0x00; 0x00;
    0x00; 0x02; 0x00; 0x00; 0x00; 0x01; 0x00; 0x06; 0x00; 0x00; 0x00; 0x00;
    0x00; 0x00; 0x00; 0x00; 0x00; 0x00; 0x00; 0x00; 0x00; 0x80; 0x00; 0x29;
    u 0; u 1; u 2; u 3; 0x4f; 0x56; 0x45; 0x52; 0x4c; 0x41; 0x59; 0x20;
    0x20; 0x20; 0x20; 0x46; 0x41; 0x54; 0x33; 0x32; 0x20; 0x20; 0x20 ].

Definition bootCode : list Z :=
  [ 0x0e; 0x1f; 0xbe; 0x77; 0x7c; 0xac; 0x22; 0xc0;
    0x74; 0x0b; 0x56; 0xb4; 0x0e; 0xbb; 0x07; 0x00; 0xcd; 0x10; 0x5e; 0xeb;
    0xf0; 0x32; 0xe4; 0xcd; 0x16; 0xcd; 0x19; 0xeb; 0xfe; 0x54; 0x68; 0x69;
    0x73; 0x20; 0x69; 0x73; 0x20; 0x6e; 0x6f; 0x74; 0x20; 0x61; 0x20; 0x62;
    0x6f; 0x6f; 0x74; 0x61; 0x62; 0x6c; 0x65; 0x20; 0x64; 0x69; 0x73; 0x6b;
    0x2e; 0x20; 0x20; 0x50; 0x6c; 0x65; 0x61; 0x73; 0x65; 0x20; 0x69; 0x6e;
    0x73; 0x65; 0x72; 0x74; 0x20; 0x61; 0x20; 0x62; 0x6f; 0x6f; 0x74; 0x61;
    0x62; 0x6c; 0x65; 0x20; 0x66; 0x6c; 0x6f; 0x70; 0x70; 0x79; 0x20; 0x61;
    0x6e; 0x64; 0x0d; 0x0a; 0x70; 0x72; 0x65; 0x73; 0x73; 0x20; 0x61; 0x6e;
    0x79; 0x20; 0x6b; 0x65; 0x79; 0x20; 0x74; 0x6f; 0x20; 0x74; 0x72; 0x79;
    0x20; 0x61; 0x67; 0x61; 0x69; 0x6e; 0x20; 0x2e; 0x2e; 0x2e; 0x20; 0x0d;
    0x0a ].

Definition rootDir (c : Clock) : list Z :=
  [ 0x4f; 0x56; 0x45; 0x52; 0x4c; 0x41; 0x59; 0x20;
    0x20; 0x20; 0x20; 0x08; 0x00; 0x00; tlo c; thi c; dlo c; dhi c; dlo c;
    dhi c; 0x00;
    0x00; tlo c; thi c; dlo c; dhi c; 0x00; 0x00; 0x00; 0x00; 0x00; 0x00 ].

Definition fileEntry (size : Z) (c : Clock) : list Z :=
  let s := getbyte (maxFileSize size) in
  [ 0x4f; 0x56; 0x45; 0x52; 0x4c; 0x41; 0x59; 0x20;
    0x49; 0x4d; 0x47; 0x20; 0x00; 0x00; tlo c; thi c; dlo c; dhi c; dlo c;
    dhi c; 0x00;
    0x00; tlo c; thi c; dlo c; dhi c; u8 FIRST_CLUSTER; 0x00; s 0; s 1; s 2;
    s 3 ].

(** ** The device behind the file descriptor *)

(** The block device as the system calls [lseek], [read] and [write] see
    it.  [dev_script] is the behaviour of the operating system for the
    coming calls.  A [read] or [write] call takes the next number: it
    transfers at most that many bytes, and fails (returns -1) when the
    number is negative.  An [lseek] call that finds [SEEK_REFUSED] next
    takes it and fails, whatever the offset; otherwise it leaves the
    script alone.  Once the script is exhausted every call does all it is
    asked for.  [dev_trace] records what each [write] call physically
    wrote, the most recent call first. *)
Record Device := {
  dev_data : Z -> Z;
  dev_pos : Z;
  dev_script : list Z;
  dev_trace : list (list Z)
}.

Definition zeros (n : Z) : list Z := repeat 0 (Z.to_nat n).

(** [store d p buf] is the contents [d] with [buf] written at offset [p]. *)
Definition store (d : Z -> Z) (p : Z) (buf : list Z) : Z -> Z :=
  fun a =>
    if (p <=? a) && (a <? p + Z.of_nat (length buf))
    then nth (Z.to_nat (a - p)) buf 0
    else d a.

(** [load d p n] is the [n] bytes of [d] from offset [p]. *)
Definition load (d : Z -> Z) (p : Z) (n : nat) : list Z :=
  map (fun i => d (p + Z.of_nat i)) (seq 0 n).

(** The number of bytes the next call transfers when asked for [n]. *)
Definition transfer (script : list Z) (n : Z) : Z :=
  match script with
  | [] => n
  | c :: _ => if c <? 0 then -1 else Z.min c n
  end.

(** The script entry that makes the next [lseek] fail: [2^63], a count
    that no [read] or [write] returns, [ssize_t] ending at [2^63 - 1]. *)
Definition SEEK_REFUSED : Z := 2 ^ 63.

Definition seekRefused (script : list Z) : bool :=
  match script with
  | c :: _ => c =? SEEK_REFUSED
  | [] => false
  end.

(** [::lseek(fd, position, SEEK_SET)]: the argument is converted to
    [off_t]; a negative offset is always refused, and the device may
    refuse any other ([seekRefused]). *)
Definition sys_lseek (position : Z) (d : Device) : Z * Device :=
  if i64 position <? 0 then (-1, d)
  else if seekRefused (dev_script d) then
    (-1, {| dev_data := dev_data d; dev_pos := dev_pos d;
            dev_script := tl (dev_script d); dev_trace := dev_trace d |})
  else (i64 position,
        {| dev_data := dev_data d; dev_pos := i64 position;
           dev_script := dev_script d; dev_trace := dev_trace d |}).

(** [::write(fd, buf, length buf)]. *)
Definition sys_write (buf : list Z) (d : Device) : Z * Device :=
  let len := transfer (dev_script d) (Z.of_nat (length buf)) in
  if len <? 0 then
    (len, {| dev_data := dev_data d; dev_pos := dev_pos d;
             dev_script := tl (dev_script d); dev_trace := dev_trace d |})
  else
    let done := firstn (Z.to_nat len) buf in
    (len, {| dev_data := store (dev_data d) (dev_pos d) done;
             dev_pos := dev_pos d + len;
             dev_script := tl (dev_script d);
             dev_trace := done :: dev_trace d |}).

(** [::read(fd, buf, n)]: the count and the bytes placed in the buffer. *)
Definition sys_read (n : Z) (d : Device) : (Z * list Z) * Device :=
  let len := transfer (dev_script d) n in
  if len <? 0 then
    ((len, []), {| dev_data := dev_data d; dev_pos := dev_pos d;
                   dev_script := tl (dev_script d);
                   dev_trace := dev_trace d |})
  else
    ((len, load (dev_data d) (dev_pos d) (Z.to_nat len)),
     {| dev_data := dev_data d; dev_pos := dev_pos d + len;
        dev_script := tl (dev_script d); dev_trace := dev_trace d |}).

(** All bytes physically written so far, in the order they were written. *)
Definition written (d : Device) : list Z := concat (rev (dev_trace d)).

(** ** The object and its monad *)

(** Modelled from the spec: [PartitionEntry] is declared in
    [blockdevice.h]; it is the "fixed 16-byte record" that the source
    fills by index, an array of [char], so that moving it into
    [m_entries] leaves the local copy as it was. *)
Definition PartitionEntry := list Z.

(** The members of [BlockDevice], with the device standing for [m_fd],
    and the calls received by the progress sink [::onProgress] (bytes
    written, total bytes), the most recent first. *)
Record BlockDevice := {
  m_fd : Device;
  m_entries : list PartitionEntry;
  m_bytesWritten : Z;
  m_totalBytes : Z;
  progress : list (Z * Z)
}.

(** The constructor. *)
Definition newBlockDevice (d : Device) : BlockDevice :=
  {| m_fd := d; m_entries := []; m_bytesWritten := 0; m_totalBytes := 0;
     progress := [] |}.

(** The failures of the specification, one per [std::runtime_error]
    thrown by the source. *)
Inductive Error := SeekFailure | ReadFailure | WriteFailure | TableFull.

(** How a call ends: it returns, it throws, or it never ends
    ([Diverged], which only the loop of [writeZeros] can bring about). *)
Inductive Outcome (A : Type) :=
| Done (a : A)
| Thrown (e : Error)
| Diverged.
Arguments Done {A} a.
Arguments Thrown {A} e.
Arguments Diverged {A}.

(** A member function: it returns or throws, and leaves the object and
    the device in the state reached at that point.  For a call that never
    ends the state is the one in which the script of the device ran out,
    from where the call goes on with a device that does all it is asked
    for. *)
Definition M (A : Type) : Type := BlockDevice -> Outcome A * BlockDevice.

Definition ret {A} (a : A) : M A := fun s => (Done a, s).

Definition throw {A} (e : Error) : M A := fun s => (Thrown e, s).

Definition diverge {A} : M A := fun s => (Diverged, s).

Definition bind {A B} (m : M A) (k : A -> M B) : M B :=
  fun s =>
    match m s with
    | (Done a, s') => k a s'
    | (Thrown e, s') => (Thrown e, s')
    | (Diverged, s') => (Diverged, s')
    end.

Notation "x <- m ;; k" := (bind m (fun x => k))
  (at level 61, m at next level, right associativity).
Notation "m ;; k" := (bind m (fun _ => k))
  (at level 61, right associativity).

(** Lifting a system call on the device. *)
Definition syscall {A} (f : Device -> A * Device) : M A :=
  fun s =>
    let (a, d) := f (m_fd s) in
    (Done a,
     {| m_fd := d; m_entries := m_entries s;
        m_bytesWritten := m_bytesWritten s; m_totalBytes := m_totalBytes s;
        progress := progress s |}).

(** [m_entries.append(entry)]. *)
Definition appendEntry (entry : PartitionEntry) : M unit :=
  fun s =>
    (Done tt,
     {| m_fd := m_fd s; m_entries := m_entries s ++ [entry];
        m_bytesWritten := m_bytesWritten s; m_totalBytes := m_totalBytes s;
        progress := progress s |}).

(** [m_entries.size()]. *)
Definition entriesSize : M Z :=
  fun s => (Done (Z.of_nat (length (m_entries s))), s).

(** [m_bytesWritten = written; m_totalBytes = total]. *)
Definition setCounters (bytes total : Z) : M unit :=
  fun s =>
    (Done tt,
     {| m_fd := m_fd s; m_entries := m_entries s;
        m_bytesWritten := bytes; m_totalBytes := total;
        progress := progress s |}).

(** [m_bytesWritten += len; ::onProgress(&m_progress, m_bytesWritten,
    m_totalBytes)]. *)
Definition countAndReport (len : Z) : M unit :=
  fun s =>
    let w := u64 (m_bytesWritten s + len) in
    (Done tt,
     {| m_fd := m_fd s; m_entries := m_entries s;
        m_bytesWritten := w; m_totalBytes := m_totalBytes s;
        progress := (w, m_totalBytes s) :: progress s |}).

(** ** Member functions *)

(** Modelled from the spec: [PARTITION_ENTRY_OFFSET] is declared in
    [blockdevice.h]; the table is "at the conventional legacy MBR
    partition-table location". *)
Definition PARTITION_ENTRY_OFFSET : Z := 0x1be.

(** [BlockDevice::seekEntry]; the default argument of the declaration is
    taken to be 0. *)
Definition seekEntry (index : Z) : M unit :=
  r <- syscall (sys_lseek
                  (u64 (PARTITION_ENTRY_OFFSET + PARTITION_ENTRY_SIZE * index))) ;;
  if r <? 0 then throw SeekFailure else ret tt.

(** [BlockDevice::seekto]. *)
Definition seekto (position : Z) : M unit :=
  r <- syscall (sys_lseek position) ;;
  if r <? 0 then throw SeekFailure else ret tt.

(** [BlockDevice::read]: the body of the loop, [n] slots to go. *)
Fixpoint read_loop (n : nat) : M unit :=
  match n with
  | O => ret tt
  | S n' =>
      r <- syscall (sys_read PARTITION_ENTRY_SIZE) ;;
      if negb (fst r =? PARTITION_ENTRY_SIZE) then throw ReadFailure
      else
        let entry := snd r in
        let isEmtpy := forallb (fun c => c =? 0) entry in
        if isEmtpy then read_loop n'
        else appendEntry entry ;; read_loop n'
  end.

Definition read : M unit :=
  seekEntry 0 ;; read_loop (Z.to_nat MAX_PARTITIONS).

(** [BlockDevice::writeZeros]. *)
Definition CHUNK_SIZE : Z := 512.

(** The loop of [writeZeros] for [size <= 2^64 - CHUNK_SIZE]: [n] is the
    number of iterations left and [i] the loop variable.  For such a
    [size] the [std::size_t] variable [i] stays below [2^64] (it ends at
    the first multiple of [CHUNK_SIZE] that is not below [size]), so that
    the loop runs [ceil (size / CHUNK_SIZE)] times unless a write
    fails. *)
Fixpoint writeZeros_loop (n : nat) (i size : Z) : M unit :=
  match n with
  | O => ret tt
  | S n' =>
      len <- syscall (sys_write (zeros (Z.min CHUNK_SIZE (size - i)))) ;;
      if len <? 0 then throw WriteFailure
      else countAndReport len ;; writeZeros_loop n' (i + CHUNK_SIZE) size
  end.

(** The loop of [writeZeros] for a larger [size]: [i] runs through the
    multiples of [CHUNK_SIZE] up to [2^64 - CHUNK_SIZE], which is below
    [size], and wraps around to 0: the condition [i < size] always holds
    and the loop ends on a failed write only.  Each iteration takes one
    entry of the script of the device, so that [fuel], the length of the
    script, bounds the iterations in which a write can fail; after them
    the loop goes on for ever. *)
Fixpoint writeZeros_endless (fuel : nat) (i size : Z) : M unit :=
  match fuel with
  | O => diverge
  | S fuel' =>
      len <- syscall (sys_write (zeros (Z.min CHUNK_SIZE (size - i)))) ;;
      if len <? 0 then throw WriteFailure
      else countAndReport len ;;
           writeZeros_endless fuel' (u64 (i + CHUNK_SIZE)) size
  end.

Definition writeZeros (size : Z) : M unit :=
  if size <=? 2 ^ 64 - CHUNK_SIZE
  then writeZeros_loop (Z.to_nat ((size + CHUNK_SIZE - 1) / CHUNK_SIZE)) 0 size
  else fun s => writeZeros_endless (length (dev_script (m_fd s))) 0 size s.

(** Modelled from the spec: the template [writeBytes] is defined in
    [blockdevice.h], which is not part of the sources.  "Any write whose
    returned byte count does not equal the requested length is a fatal
    failure", and "progress is reported after every physical write". *)
Definition writeBytes (buffer : list Z) : M unit :=
  len <- syscall (sys_write buffer) ;;
  if negb (len =? extent buffer) then throw WriteFailure
  else countAndReport len.

Section Geometry.

(** The synthetic geometry is declared in [blockdevice.h], which is not
    part of the sources, and the specification leaves its values open:
    they are parameters here. *)
Variables NUM_HEADS NUM_SECTORS : Z.

(** [BlockDevice::fillChs]: the three bytes stored at [chs[0..2]].
    The locals [head], [sector] and [cylinder] are [int]. *)
Definition fillChs (position : Z) : list Z :=
  let head := i32 ((position / NUM_SECTORS) mod NUM_HEADS) in
  let sector := i32 ((position mod NUM_SECTORS) + 1) in
  let cylinder := i32 (position / (NUM_HEADS * NUM_SECTORS)) in
  [ u8 (Z.land head 0xff);
    u8 (Z.lor (Z.land (Z.shiftr cylinder 2) 0xc0) (Z.land sector 0x3f));
    u8 (Z.land cylinder 0xff) ].

(** The entry assembled by [BlockDevice::addPartition], lines 103-113. *)
Definition buildEntry (offset size : Z) : PartitionEntry :=
  let lba := u32 (offset / SECTOR_SIZE) in
  let count := u32 (size / SECTOR_SIZE) in
  [0x0] ++ fillChs offset ++ [0xb] ++ fillChs (u64 (offset + size))
  ++ le32 lba ++ le32 count.

(** [BlockDevice::addPartition], lines 115-125. *)
Definition addPartition (offset size : Z) : M Z :=
  let entry := buildEntry offset size in
  n <- entriesSize ;;
  let num := i32 (n + 1) in
  if num >? MAX_PARTITIONS then throw TableFull
  else
    appendEntry entry ;;
    seekEntry (num - 1) ;;
    bytes <- syscall (sys_write entry) ;;
    if negb (bytes =? extent entry) then throw WriteFailure
    else ret num.

End Geometry.

(** [BlockDevice::formatOverlayPartition]: the cluster chain of one FAT
    copy, [n] links to go from [cluster]. *)
Fixpoint writeChain (n : nat) (cluster : Z) : M unit :=
  match n with
  | O => ret tt
  | S n' => writeBytes (le32 (u32 cluster)) ;; writeChain n' (cluster + 1)
  end.

(** Lines 279-281: the local [used], a [std::size_t]. *)
Definition fatUsed (size : Z) : Z :=
  u64 (u64 (extent fat
            + u64 ((nextFreeCluster size - (FIRST_CLUSTER + 1)) * 4))
       + extent fatEof).

(** The body of the loop over the FAT copies, lines 287-294. *)
Definition writeFat (size : Z) : M unit :=
  writeBytes fat ;;
  writeChain (Z.to_nat (nextFreeCluster size - (FIRST_CLUSTER + 1)))
             (FIRST_CLUSTER + 1) ;;
  writeBytes fatEof ;;
  writeZeros (u64 (SECTOR_SIZE * fatlength size - fatUsed size)).

Fixpoint repeatM (n : nat) (m : M unit) : M unit :=
  match n with
  | O => ret tt
  | S n' => m ;; repeatM n' m
  end.

(** The boot sector, its boot code and signature: lines 259-262, and
    again lines 273-276. *)
Definition writeBootSector (size : Z) (c : Clock) : M unit :=
  writeBytes (bootSector size c) ;;
  writeBytes bootCode ;;
  writeZeros (u64 (bootCodeSize - extent bootCode)) ;;
  writeBytes bootSign.

(** Lines 259-278: the reserved sectors. *)
Definition writeReserved (size : Z) (c : Clock) : M unit :=
  writeBootSector size c ;;

  writeBytes infoSector ;;
  writeZeros fsinfoOffset ;;
  writeBytes (fsinfo size) ;;
  writeZeros 14 ;;
  writeBytes bootSign ;;

  writeZeros (SECTOR_SIZE * 4) ;;

  writeBootSector size c ;;

  writeZeros (SECTOR_SIZE * 25).

(** Lines 279-300: the FAT copies, the root directory cluster and the
    zeroed start of the file. *)
Definition writeData (size : Z) (c : Clock) : M unit :=
  repeatM (Z.to_nat NR_FATS) (writeFat size) ;;
  writeBytes (rootDir c) ;;
  writeBytes (fileEntry size c) ;;
  writeZeros (u64 (clusterSize size - extent (rootDir c)
                   - extent (fileEntry size c))) ;;
  writeZeros (fileZeros size).

(** [BlockDevice::formatOverlayPartition], from line 255 on. *)
Definition formatOverlayPartition (offset size : Z) (c : Clock) : M unit :=
  seekto offset ;;
  setCounters 0 (u64 (headerSize size + fileZeros size)) ;;
  writeReserved size c ;;
  writeData size c.

(** ** Definitions that follow the words of the specification *)

(** The CHS packing of the specification for a sector index [s]:
    "head = (s / sectorsPerTrack) mod headsPerCylinder; sector = (s mod
    sectorsPerTrack) + 1; cylinder = s / (headsPerCylinder x
    sectorsPerTrack).  Packed into 3 bytes as: byte0 = head; byte1 = (high
    2 bits of cylinder shifted into bits 6-7) OR (sector, 6 bits); byte2 =
    low 8 bits of cylinder." *)
Definition spec_chs (headsPerCylinder sectorsPerTrack s : Z) : list Z :=
  let head := (s / sectorsPerTrack) mod headsPerCylinder in
  let sector := (s mod sectorsPerTrack) + 1 in
  let cylinder := s / (headsPerCylinder * sectorsPerTrack) in
  [ head;
    Z.lor (Z.shiftl (Z.land (Z.shiftr cylinder 8) 3) 6) (Z.land sector 63);
    Z.land cylinder 255 ].

(** The FAT timestamp of the specification: "time = ((seconds+1)>>1) |
    (minutes<<5) | (hours<<11); date = day | (month<<5) |
    ((year-1980)<<9)". *)
Definition spec_fatTime (c : Clock) : Z :=
  Z.lor (Z.lor (Z.shiftr (second c + 1) 1) (Z.shiftl (minute c) 5))
        (Z.shiftl (hour c) 11).

Definition spec_fatDate (c : Clock) : Z :=
  Z.lor (Z.lor (day c) (Z.shiftl (month c) 5))
        (Z.shiftl (year c - 1980) 9).

(** The fields of a partition table entry, read back. *)
Definition chsStart (e : PartitionEntry) : list Z := firstn 3 (skipn 1 e).
Definition chsEnd (e : PartitionEntry) : list Z := firstn 3 (skipn 5 e).
Definition entryLba (e : PartitionEntry) : Z := le32_decode (firstn 4 (skipn 8 e)).
Definition entryCount (e : PartitionEntry) : Z := le32_decode (firstn 4 (skipn 12 e)).

(** The 16 bytes of slot [i] of the on-disk table. *)
Definition slot (d : Z -> Z) (i : Z) : PartitionEntry :=
  load d (PARTITION_ENTRY_OFFSET + PARTITION_ENTRY_SIZE * i)
       (Z.to_nat PARTITION_ENTRY_SIZE).

Definition isEmpty (e : PartitionEntry) : bool := forallb (fun c => c =? 0) e.

(** The non-empty slots of the on-disk table, in on-disk order. *)
Definition onDisk (d : Z -> Z) : list PartitionEntry :=
  filter (fun e => negb (isEmpty e)) (map (slot d) [0; 1; 2; 3]).

(** The number of bytes physically written to the device. *)
Definition physicallyWritten (d : Device) : Z :=
  fold_left (fun acc b => acc + extent b) (dev_trace d) 0.

(** A device that does all it is asked for: with an empty script no seek
    is refused and every read and write transfers in full. *)
Definition ideal (s : BlockDevice) : Prop := dev_script (m_fd s) = [].

(** ** Concrete inputs *)

Definition GiB : Z := 1024 * 1024 * 1024.
Definition MiB : Z := 1024 * 1024.

(** 2026-10-30 13:42:17 UTC. *)
Definition sampleClock : Clock :=
  {| msecsSinceEpoch := 1793367737123;
     second := 17; minute := 42; hour := 13;
     day := 30; month := 10; year := 2026 |}.

(** A blank device: all bytes zero. *)
Definition blankDevice (script : list Z) : Device :=
  {| dev_data := fun _ => 0; dev_pos := 0; dev_script := script;
     dev_trace := [] |}.

(** A consecutive range of integers. *)
Definition zrange (lo : Z) (n : nat) : list Z :=
  map (fun i => lo + Z.of_nat i) (seq 0 n).

(** ** The byte stream of the formatter *)

(** The links of the cluster chain, as bytes. *)
Fixpoint chainBytes (n : nat) (cluster : Z) : list Z :=
  match n with
  | O => []
  | S n' => le32 (u32 cluster) ++ chainBytes n' (cluster + 1)
  end.

(** Sector 0 (and its copy): boot sector, boot code, padding, signature. *)
Definition bootBlock (size : Z) (c : Clock) : list Z :=
  bootSector size c ++ bootCode
  ++ zeros (u64 (bootCodeSize - extent bootCode)) ++ bootSign.

(** Sector 1: the FSInfo sector. *)
Definition fsinfoSector (size : Z) : list Z :=
  infoSector ++ zeros fsinfoOffset ++ fsinfo size ++ zeros 14 ++ bootSign.

(** The reserved sectors. *)
Definition reservedArea (size : Z) (c : Clock) : list Z :=
  bootBlock size c ++ fsinfoSector size ++ zeros (SECTOR_SIZE * 4)
  ++ bootBlock size c ++ zeros (SECTOR_SIZE * 25).

(** One FAT copy: the two reserved entries and the entry of the root
    directory, the chain of the file, its end mark, and zeros up to the
    length of the FAT.  When the chain is longer than the FAT
    ([SECTOR_SIZE * fatlength size < fatUsed size]) nothing is left to
    pad; the source, which computes the length of the padding in
    [std::size_t], then asks [writeZeros] for nearly [2^64] bytes and
    does not complete the copy. *)
Definition fatCopy (size : Z) : list Z :=
  fat
  ++ chainBytes (Z.to_nat (nextFreeCluster size - (FIRST_CLUSTER + 1)))
                (FIRST_CLUSTER + 1)
  ++ fatEof
  ++ zeros (SECTOR_SIZE * fatlength size - fatUsed size).

(** The FAT copies, the root directory cluster and the zeroed start of
    the file. *)
Definition dataArea (size : Z) (c : Clock) : list Z :=
  (fatCopy size ++ fatCopy size ++ [])
  ++ rootDir c ++ fileEntry size c
  ++ zeros (u64 (clusterSize size - extent (rootDir c)
                 - extent (fileEntry size c)))
  ++ zeros (fileZeros size).

(** Sector [k] of a byte stream. *)
Definition sectorOf (stream : list Z) (k : nat) : list Z :=
  firstn 512 (skipn (512 * k) stream).

(** ** Predicates of the properties *)

(** [emits m bs]: on a device that transfers everything, [m] returns
    after having physically written exactly the bytes [bs], in the calls
    [tr], with one progress report per call, each against the total of
    the object; the entry list and the total are left alone, and the
    byte counter has advanced by the length of [bs]. *)
Definition emits {A} (m : M A) (bs : list Z) : Prop :=
  forall s, ideal s ->
    exists a s' tr rep,
      m s = (Done a, s')
      /\ ideal s'
      /\ dev_trace (m_fd s') = tr ++ dev_trace (m_fd s)
      /\ concat (rev tr) = bs
      /\ dev_pos (m_fd s') = dev_pos (m_fd s) + extent bs
      /\ progress s' = rep ++ progress s
      /\ length rep = length tr
      /\ Forall (fun r => snd r = m_totalBytes s) rep
      /\ m_entries s' = m_entries s
      /\ m_totalBytes s' = m_totalBytes s
      /\ (0 <= m_bytesWritten s < 2 ^ 64 ->
          m_bytesWritten s' = u64 (m_bytesWritten s + extent bs)).

(** The specification's reading of the reserved area: two sectors of
    zero padding after the FSInfo sector, then the backup copy. *)
Definition gapOfTwoSectors (stream : list Z) : Prop :=
  sectorOf stream 2 = zeros SECTOR_SIZE
  /\ sectorOf stream 3 = zeros SECTOR_SIZE
  /\ sectorOf stream 4 = sectorOf stream 0.

(** The non-empty ones among the [n] slots that start at offset [p]. *)
Definition slotsFrom (d : Z -> Z) (p : Z) (n : nat) : list PartitionEntry :=
  filter (fun e => negb (isEmpty e))
         (map (fun i => load d (p + PARTITION_ENTRY_SIZE * Z.of_nat i)
                             (Z.to_nat PARTITION_ENTRY_SIZE))
              (seq 0 n)).

(** The property of the specification: [addPartition] returns the 1-based
    position of the new entry, and the [read] that follows yields, from
    the slot just written, an entry whose LBA and sector count decode to
    [offset / 512] and [size / 512]. *)
Definition appendThenReadYields (NH NS offset size : Z) (s : BlockDevice) : Prop :=
  exists num s1 s2 e,
    addPartition NH NS offset size s = (Done num, s1)
    /\ read s1 = (Done tt, s2)
    /\ num = Z.of_nat (length (m_entries s)) + 1
    /\ e = slot (dev_data (m_fd s2)) (num - 1)
    /\ In e (skipn (length (m_entries s1)) (m_entries s2))
    /\ entryLba e = offset / SECTOR_SIZE
    /\ entryCount e = size / SECTOR_SIZE.

(** What two [read]s in a row leave behind, on a fresh object whose
    device holds the non-empty slots [table]: every entry twice, and the
    slot of the next [addPartition] moved from [length table] to twice
    that (or the table taken to be full). *)
Definition readTwiceOutcome (NH NS offset size : Z) (s : BlockDevice) : Prop :=
  let table := onDisk (dev_data (m_fd s)) in
  let k := Z.of_nat (length table) in
  let entry := buildEntry NH NS offset size in
  exists s1 s2,
    read s = (Done tt, s1)
    /\ m_entries s1 = table
    /\ read s1 = (Done tt, s2)
    /\ m_entries s2 = table ++ table
    /\ Z.of_nat (length (m_entries s2)) = 2 * k
    /\ dev_data (m_fd s2) = dev_data (m_fd s)
    /\ dev_trace (m_fd s2) = dev_trace (m_fd s)
    /\ (k < MAX_PARTITIONS ->
        exists s3, addPartition NH NS offset size s1 = (Done (k + 1), s3)
                   /\ slot (dev_data (m_fd s3)) k = entry)
    /\ (2 * k < MAX_PARTITIONS ->
        exists s3, addPartition NH NS offset size s2 = (Done (2 * k + 1), s3)
                   /\ slot (dev_data (m_fd s3)) (2 * k) = entry)
    /\ (MAX_PARTITIONS <= 2 * k ->
        addPartition NH NS offset size s2 = (Thrown TableFull, s2)).

(** The time field agrees with the specified encoding: on a valid time of
    day the three summands of line 236 occupy disjoint bits. *)
Definition timeAgrees (h m s : Z) : bool :=
  let c := {| msecsSinceEpoch := 0; second := s; minute := m; hour := h;
              day := 1; month := 1; year := 1980 |} in
  fatTime c =? spec_fatTime c.

(** Whatever the synthetic geometry, the CHS bytes of the partition that
    starts at byte 512 are not those of its starting sector 1. *)
Definition chsDiffers (NH NS : Z) : bool :=
  if list_eq_dec Z.eq_dec (chsStart (buildEntry NH NS 512 512))
                 (spec_chs NH NS (512 / SECTOR_SIZE))
  then false else true.

(** ** More concrete inputs *)

Definition fourEntries : BlockDevice :=
  {| m_fd := blankDevice [];
     m_entries := [buildEntry 255 63 MiB MiB; buildEntry 255 63 (2 * MiB) MiB;
                   buildEntry 255 63 (3 * MiB) MiB; buildEntry 255 63 (4 * MiB) MiB];
     m_bytesWritten := 0; m_totalBytes := 0; progress := [] |}.

(** A device whose table holds one partition, in slot 0. *)
Definition onePartition : Device :=
  {| dev_data := store (fun _ => 0) PARTITION_ENTRY_OFFSET
                       (buildEntry 255 63 MiB (256 * MiB));
     dev_pos := 0; dev_script := []; dev_trace := [] |}.

(** ** Definitions for the further properties *)

(** Reading a CHS field back: the inverse of the packing of [fillChs]. *)
Definition chsDecode (NH NS : Z) (chs : list Z) : Z :=
  let head := nth 0 chs 0 in
  let sector := Z.land (nth 1 chs 0) 0x3f in
  let cylinder := Z.lor (Z.shiftl (Z.shiftr (nth 1 chs 0) 6) 8) (nth 2 chs 0) in
  (cylinder * NH + head) * NS + (sector - 1).

(** The second and third byte of [fillChs] determine cylinder and sector. *)
Definition chsBytesDecode (cylinder sector : Z) : bool :=
  let b1 := Z.lor (Z.shiftl (Z.land (Z.shiftr cylinder 8) 3) 6)
                  (Z.land sector 63) in
  let b2 := Z.land cylinder 255 in
  (Z.land b1 0x3f =? sector)
  && (Z.lor (Z.shiftl (Z.shiftr b1 6) 8) b2 =? cylinder).


(** Reading the time field back. *)
Definition timeDecodes (h m s : Z) : bool :=
  let c := {| msecsSinceEpoch := 0; second := s; minute := m; hour := h;
              day := 1; month := 1; year := 1980 |} in
  let t := tlo c + 256 * thi c in
  (Z.shiftr t 11 =? h)
  && (Z.land (Z.shiftr t 5) 63 =? m)
  && (Z.land t 31 =? (s + 1) / 2).

(** [quiet n m]: whatever the device does, [m] leaves the device
    contents, the write trace, the counters and the progress sink alone,
    only adds non-empty entries to the entry list, at most [n], and ends
    normally or with a read failure. *)
Definition quiet (n : nat) (m : M unit) : Prop :=
  forall s r s', m s = (r, s') ->
    dev_data (m_fd s') = dev_data (m_fd s)
    /\ dev_trace (m_fd s') = dev_trace (m_fd s)
    /\ m_bytesWritten s' = m_bytesWritten s
    /\ m_totalBytes s' = m_totalBytes s
    /\ progress s' = progress s
    /\ (exists more,
          m_entries s' = m_entries s ++ more
          /\ (length more <= n)%nat
          /\ Forall (fun e => isEmpty e = false) more)
    /\ (r = Done tt \/ r = Thrown ReadFailure).

(** A device whose second read comes back short. *)
Definition shortSecondRead : BlockDevice :=
  newBlockDevice
    {| dev_data := dev_data onePartition; dev_pos := 0;
       dev_script := [16; 7]; dev_trace := [] |}.

(** An outcome of a function that only seeks and writes. *)
Definition seekOrWrite {A} (r : Outcome A) : Prop :=
  match r with
  | Done _ => True
  | Thrown e => e = SeekFailure \/ e = WriteFailure
  | Diverged => False
  end.

(** [sequential m]: whatever the device does, [m] leaves the entry list
    alone, never moves the file position backwards, changes no byte
    outside the range the position has moved over, only adds to the write
    trace, and ends normally or with a seek or write failure. *)
Definition sequential {A} (m : M A) : Prop :=
  forall s r s', m s = (r, s') ->
    m_entries s' = m_entries s
    /\ dev_pos (m_fd s) <= dev_pos (m_fd s')
    /\ (forall a, a < dev_pos (m_fd s) \/ dev_pos (m_fd s') <= a ->
          dev_data (m_fd s') a = dev_data (m_fd s) a)
    /\ (exists tr, dev_trace (m_fd s') = tr ++ dev_trace (m_fd s))
    /\ seekOrWrite r.

(** * Properties *)

Lemma forallb_zrange (f : Z -> bool) (lo : Z) (n : nat) :
  forallb f (zrange lo n) = true ->
  forall z, lo <= z < lo + Z.of_nat n -> f z = true.
Proof.
  intros Hall z Hz.
  rewrite forallb_forall in Hall. apply Hall.
  unfold zrange. apply in_map_iff.
  exists (Z.to_nat (z - lo)). split; [lia|].
  apply in_seq. lia.
Qed.

(** ** Machine integers *)

Lemma i32_small (x : Z) : - 2 ^ 31 <= x < 2 ^ 31 -> i32 x = x.
Proof.
  intros H. unfold i32.
  rewrite Z.mod_small; lia.
Qed.

Lemma u64_small (x : Z) : 0 <= x < 2 ^ 64 -> u64 x = x.
Proof. intros H. unfold u64. apply Z.mod_small; lia. Qed.

Lemma u32_small (x : Z) : 0 <= x < 2 ^ 32 -> u32 x = x.
Proof. intros H. unfold u32. apply Z.mod_small; lia. Qed.

Lemma u8_land (x : Z) : u8 x = Z.land x 255.
Proof. unfold u8. rewrite <- (Z.land_ones x 8) by lia. reflexivity. Qed.

Lemma land_le_l (x m : Z) : 0 <= x -> 0 <= m -> Z.land x m <= x.
Proof.
  intros Hx Hm.
  rewrite <- (Z2N.id x), <- (Z2N.id m), <- N2Z.inj_land by assumption.
  apply N2Z.inj_le, N.land_le_l.
Qed.

Lemma u64_add_l (x y : Z) : u64 (u64 x + y) = u64 (x + y).
Proof. unfold u64. rewrite Zplus_mod_idemp_l. reflexivity. Qed.

Lemma le32_roundtrip (x : Z) : 0 <= x < 2 ^ 32 -> le32_decode (le32 x) = x.
Proof.
  intros H. unfold le32_decode, le32, u8. cbn [nth].
  rewrite !Z.shiftl_mul_pow2, !Z.shiftr_div_pow2 by lia.
  change (2 ^ 8) with 256. change (2 ^ 16) with 65536.
  change (2 ^ 24) with 16777216.
  assert (E1 : x / 256 / 256 = x / 65536)
    by (rewrite Z.div_div by lia; reflexivity).
  assert (E2 : x / 65536 / 256 = x / 16777216)
    by (rewrite Z.div_div by lia; reflexivity).
  pose proof (Z.div_mod x 256 ltac:(lia)) as D0.
  pose proof (Z.div_mod (x / 256) 256 ltac:(lia)) as D1. rewrite E1 in D1.
  pose proof (Z.div_mod (x / 65536) 256 ltac:(lia)) as D2. rewrite E2 in D2.
  assert (0 <= x / 16777216 < 256)
    by (split; [apply Z.div_pos; lia | apply Z.div_lt_upper_bound; lia]).
  rewrite (Z.mod_small (x / 16777216) 256) by lia.
  lia.
Qed.

Lemma land_not64 (x m : Z) :
  0 <= x < 2 ^ 64 -> Z.land x (not64 m) = Z.ldiff x m.
Proof.
  intros Hx. unfold not64, u64.
  rewrite <- Z.land_ones by lia.
  rewrite Z.land_assoc, (Z.land_comm x), <- Z.land_assoc.
  rewrite (Z.land_ones x 64) by lia.
  rewrite Z.mod_small by lia.
  rewrite Z.land_comm. symmetry. apply Z.ldiff_land.
Qed.

Lemma ldiff_split (x m : Z) : x = Z.ldiff x m + Z.land x m.
Proof.
  assert (D : Z.land (Z.ldiff x m) (Z.land x m) = 0).
  { apply Z.bits_inj'. intros n Hn.
    rewrite Z.land_spec, Z.ldiff_spec, Z.land_spec, Z.bits_0.
    destruct (Z.testbit x n), (Z.testbit m n); reflexivity. }
  rewrite (Z.add_nocarry_lxor _ _ D), (Z.lxor_lor _ _ D).
  rewrite Z.lor_ldiff_and. reflexivity.
Qed.

Lemma align_bounds (n a : Z) :
  0 <= n -> 1 <= a -> n + a - 1 < 2 ^ 64 ->
  n <= align n a <= n + a - 1.
Proof.
  intros Hn Ha Hx. unfold align.
  rewrite (u64_small (n + a - 1)) by lia.
  rewrite (u64_small (a - 1)) by lia.
  rewrite land_not64 by lia.
  pose proof (ldiff_split (n + a - 1) (a - 1)) as S.
  assert (0 <= Z.land (n + a - 1) (a - 1) <= a - 1).
  { split; [apply Z.land_nonneg; lia|].
    rewrite Z.land_comm. apply land_le_l; lia. }
  assert (0 <= Z.ldiff (n + a - 1) (a - 1)) by (apply Z.ldiff_nonneg; lia).
  lia.
Qed.

Lemma align_pow2 (n : Z) (k : Z) :
  0 <= k < 64 -> 0 <= n -> n + 2 ^ k - 1 < 2 ^ 64 ->
  align n (2 ^ k) mod 2 ^ k = 0.
Proof.
  intros Hk Hn Hx. unfold align.
  assert (0 < 2 ^ k) by (apply Z.pow_pos_nonneg; lia).
  assert (2 ^ k <= 2 ^ 63) by (apply Z.pow_le_mono_r; lia).
  rewrite (u64_small (n + 2 ^ k - 1)) by lia.
  rewrite (u64_small (2 ^ k - 1)) by lia.
  rewrite land_not64 by lia.
  replace (2 ^ k - 1) with (Z.ones k) by (rewrite Z.ones_equiv; lia).
  rewrite Z.ldiff_ones_r by lia.
  rewrite Z.shiftl_mul_pow2 by lia.
  apply Z.mod_mul. lia.
Qed.

(** ** Cluster size selection *)

(** What lines 159-161 compute, threshold by threshold. *)
Lemma sectorsPerCluster_cases (size : Z) :
  sectorsPerCluster size =
    if sizeMb size <=? 260 then 1
    else if sizeMb size <=? 8192 then 8
    else if sizeMb size <=? 16384 then 16
    else if sizeMb size <=? 32768 then 24
    else 32.
Proof.
  unfold sectorsPerCluster, ranges. cbn [qLowerBound].
  change (1024 * 8) with 8192. change (1024 * 16) with 16384.
  change (1024 * 32) with 32768.
  destruct (260 <? sizeMb size) eqn:H1;
    [|destruct (sizeMb size <=? 260) eqn:E; [reflexivity|lia]].
  destruct (sizeMb size <=? 260) eqn:E1; [lia|].
  destruct (8192 <? sizeMb size) eqn:H2;
    [|destruct (sizeMb size <=? 8192) eqn:E; [reflexivity|lia]].
  destruct (sizeMb size <=? 8192) eqn:E2; [lia|].
  destruct (16384 <? sizeMb size) eqn:H3;
    [|destruct (sizeMb size <=? 16384) eqn:E; [reflexivity|lia]].
  destruct (sizeMb size <=? 16384) eqn:E3; [lia|].
  destruct (32768 <? sizeMb size) eqn:H4;
    [|destruct (sizeMb size <=? 32768) eqn:E; [reflexivity|lia]].
  destruct (sizeMb size <=? 32768) eqn:E4; [lia|reflexivity].
Qed.

(** Every partition size yields one of five values. *)
Lemma sectorsPerCluster_values (size : Z) :
  In (sectorsPerCluster size) [1; 8; 16; 24; 32].
Proof.
  rewrite sectorsPerCluster_cases.
  repeat match goal with
         | |- context [if ?b then _ else _] => destruct b
         end; simpl; auto 6.
Qed.

(** C1: sectors-per-cluster is claimed to lie in {1, 8, 16, 32} for every
    partition size, the threshold 32768 MB giving 32.  On a partition of
    20 GiB (and on one of exactly 32768 MiB) the source computes 24: the
    index returned by [qLowerBound] is multiplied by 8, so the fourth
    range yields 3 * 8. *)
Theorem sectorsPerCluster_20GiB :
  sectorsPerCluster (20 * GiB) = 24
  /\ sectorsPerCluster (32768 * MiB) = 24
  /\ ~ In (sectorsPerCluster (20 * GiB)) [1; 8; 16; 32].
Proof.
  repeat split; try reflexivity.
  vm_compute. intros [H|[H|[H|[H|[]]]]]; discriminate H.
Qed.

(** ** Layout *)

(** The threshold that each value of sectors-per-cluster implies, for a
    size below 2 TiB. *)
Lemma sectorsPerCluster_range (size : Z) :
  0 <= size < 2 ^ 41 ->
  (sectorsPerCluster size = 1 /\ size < 261 * MiB)
  \/ (sectorsPerCluster size = 8 /\ size < 8193 * MiB)
  \/ (sectorsPerCluster size = 16 /\ size < 16385 * MiB)
  \/ (sectorsPerCluster size = 24 /\ size < 32769 * MiB)
  \/ sectorsPerCluster size = 32.
Proof.
  intros H. rewrite sectorsPerCluster_cases.
  assert (E : sizeMb size = size / 1048576).
  { unfold sizeMb. change (1024 * 1024) with 1048576. apply i32_small.
    assert (0 <= size / 1048576) by (apply Z.div_pos; lia).
    assert (size / 1048576 < 2 ^ 21) by (apply Z.div_lt_upper_bound; lia).
    lia. }
  rewrite E. unfold MiB. change (1024 * 1024) with 1048576.
  pose proof (Z.div_mod size 1048576 ltac:(lia)).
  pose proof (Z.mod_pos_bound size 1048576 ltac:(lia)).
  destruct (Z.leb_spec (size / 1048576) 260); [left; lia|].
  destruct (Z.leb_spec (size / 1048576) 8192); [right; left; lia|].
  destruct (Z.leb_spec (size / 1048576) 16384); [right; right; left; lia|].
  destruct (Z.leb_spec (size / 1048576) 32768);
    [right; right; right; left; lia|].
  right; right; right; right; reflexivity.
Qed.

(** The layout without wrap-around, for partitions of 1 MiB to 2 TiB. *)
Lemma layout_facts (size : Z) :
  MiB <= size < 2 ^ 41 ->
  exists spc cl x,
    sectorsPerCluster size = spc /\ 1 <= spc <= 32
    /\ clusterSize size = 512 * spc
    /\ clusters size = cl /\ 0 <= cl /\ 520 * cl <= size
    /\ 4 * cl + 8 <= 512 * x <= 4 * cl + 519
    /\ x <= fatlength size <= x + spc - 1
    /\ fatlength size = align x spc
    /\ headerSize size = (32 + 2 * fatlength size + spc) * 512.
Proof.
  unfold MiB. intros H.
  set (spc := sectorsPerCluster size).
  assert (Hspc : (spc = 1 /\ size < 261 * 1048576)
                 \/ (spc = 8 /\ size < 8193 * 1048576)
                 \/ (spc = 16 /\ size < 16385 * 1048576)
                 \/ (spc = 24 /\ size < 32769 * 1048576)
                 \/ spc = 32)
    by (apply (sectorsPerCluster_range size); lia).
  assert (Hspc' : 1 <= spc <= 32) by lia.
  set (ns := size / 512).
  assert (Hns : 512 * ns <= size < 512 * ns + 512).
  { subst ns. pose proof (Z.div_mod size 512 ltac:(lia)).
    pose proof (Z.mod_pos_bound size 512 ltac:(lia)). lia. }
  set (cl := ((ns - 32) * 512 + 16) / (512 * spc + 8)).
  assert (Hcl : (512 * spc + 8) * cl <= (ns - 32) * 512 + 16
                < (512 * spc + 8) * cl + (512 * spc + 8)).
  { subst cl. pose proof (Z.div_mod ((ns - 32) * 512 + 16) (512 * spc + 8) ltac:(lia)).
    pose proof (Z.mod_pos_bound ((ns - 32) * 512 + 16) (512 * spc + 8) ltac:(lia)).
    lia. }
  assert (Hcl0 : 0 <= cl) by (subst cl; apply Z.div_pos; lia).
  assert (Hcl1 : 520 * cl <= size) by nia.
  assert (Hcl2 : cl < 2 ^ 28).
  { destruct Hspc as [[E B]|[[E B]|[[E B]|[[E B]|E]]]]; rewrite E in Hcl; lia. }
  set (x := ((cl + 2) * 4 + 511) / 512).
  assert (Hx : 512 * x <= (cl + 2) * 4 + 511 < 512 * x + 512).
  { subst x. pose proof (Z.div_mod ((cl + 2) * 4 + 511) 512 ltac:(lia)).
    pose proof (Z.mod_pos_bound ((cl + 2) * 4 + 511) 512 ltac:(lia)). lia. }
  assert (Ecs : clusterSize size = 512 * spc).
  { unfold clusterSize, SECTOR_SIZE. fold spc. apply i32_small. lia. }
  assert (Ecl : clusters size = cl).
  { unfold clusters, fatdata, numSectors, SECTOR_SIZE, RESERVED_SECTORS, NR_FATS.
    fold ns. rewrite Ecs.
    rewrite (u64_small (ns - 32)) by lia.
    rewrite (u64_small ((ns - 32) * 512 + 2 * 8)) by lia.
    rewrite (u64_small (512 * spc + 2 * 4)) by lia.
    reflexivity. }
  assert (Efl : fatlength size = align x spc).
  { unfold fatlength, divCeil, SECTOR_SIZE. fold spc. rewrite Ecl.
    rewrite (u64_small ((cl + 2) * 4)) by lia.
    rewrite (i32_small ((cl + 2) * 4)) by lia.
    rewrite (i32_small 512) by lia.
    rewrite (i32_small ((cl + 2) * 4 + 512 - 1)) by lia.
    rewrite Z.quot_div_nonneg by lia.
    replace ((cl + 2) * 4 + 512 - 1) with ((cl + 2) * 4 + 511) by lia.
    fold x. rewrite (i32_small x) by lia.
    rewrite (u64_small x) by lia. rewrite (u64_small spc) by lia.
    reflexivity. }
  assert (Hfl : x <= fatlength size <= x + spc - 1).
  { rewrite Efl. apply align_bounds; lia. }
  exists spc, cl, x.
  repeat split; try lia; try assumption.
  unfold headerSize, RESERVED_SECTORS, SECTOR_SIZE. fold spc.
  rewrite u64_small by lia. lia.
Qed.

(** Header and zero-fill fit in the partition, for partitions of 1 MiB
    to 2 TiB. *)
Lemma layout_fits (size : Z) :
  MiB <= size < 2 ^ 41 ->
  headerSize size + fileZeros size <= size
  /\ headerSize size + 2 <= size
  /\ 0 <= maxFileSize size <= size - headerSize size - 2
  /\ maxFileSize size <= 2 ^ 32 - 3.
Proof.
  intros H.
  destruct (layout_facts size H)
    as (spc & cl & x & Es & Hs & Ecs & Ecl & Hcl0 & Hcl & Hx & Hfl & Efl & Eh).
  unfold MiB in H.
  assert (Hh : headerSize size + 2 <= size) by lia.
  assert (Hh0 : 0 <= headerSize size) by lia.
  assert (Hm : 0 <= maxFileSize size
               <= Z.min (size - headerSize size) 0xffffffff - 2).
  { unfold maxFileSize, SECTOR_SIZE.
    rewrite (u64_small (size - headerSize size)) by lia.
    set (m := Z.min (size - headerSize size) 0xffffffff).
    assert (2 <= m <= 0xffffffff) by (subst m; lia).
    unfold align.
    replace (u64 (m - 512 - 1) + 512 - 1) with (u64 (m - 512 - 1) + 511) by lia.
    rewrite u64_add_l.
    replace (m - 512 - 1 + 511) with (m - 2) by lia.
    rewrite (u64_small (m - 2)) by lia.
    split; [apply Z.land_nonneg; lia|].
    apply land_le_l; [lia|].
    unfold not64, u64. apply Z.mod_pos_bound. lia. }
  unfold fileZeros. lia.
Qed.

(** The FAT length is a multiple of sectors-per-cluster whenever the
    latter is a power of two, that is, except on the range that yields
    24. *)
Lemma fatlength_multiple (size : Z) :
  MiB <= size < 2 ^ 41 ->
  sectorsPerCluster size <> 24 ->
  fatlength size mod sectorsPerCluster size = 0.
Proof.
  intros H H24.
  destruct (layout_facts size H)
    as (spc & cl & x & Es & Hs & Ecs & Ecl & Hcl0 & Hcl & Hx & Hfl & Efl & Eh).
  rewrite Efl, Es.
  pose proof (sectorsPerCluster_values size) as V. rewrite Es in V, H24.
  unfold MiB in H.
  simpl in V.
  destruct V as [<-|[<-|[<-|[<-|[<-|[]]]]]]; try congruence.
  - apply Z.mod_1_r.
  - apply (align_pow2 x 3); lia.
  - apply (align_pow2 x 4); lia.
  - apply (align_pow2 x 5); lia.
Qed.

(** C4: the FAT length is claimed to be a multiple of sectors-per-cluster
    for every supported partition size.  On a partition of 20 GiB the
    source chooses 24 sectors per cluster, the mask of [align] is not that
    of a power of two, and the FAT length 13664 leaves remainder 8. *)
Theorem fatlength_20GiB_not_multiple :
  sectorsPerCluster (20 * GiB) = 24
  /\ fatlength (20 * GiB) = 13664
  /\ fatlength (20 * GiB) mod sectorsPerCluster (20 * GiB) = 8.
Proof. repeat split; vm_compute; reflexivity. Qed.

(** ** Timestamps *)

(** C3: the date field is claimed to be [day | month<<5 | (year-1980)<<9].
    Line 237 adds [year - 1980] without the shift: on 2026-10-30 the
    source stores 396 where the claimed encoding is 23902, and these are
    the bytes of both directory entries. *)
Theorem fatDate_2026_10_30 :
  fatDate sampleClock = 396
  /\ spec_fatDate sampleClock = 23902
  /\ firstn 2 (skipn 16 (rootDir sampleClock)) = [140; 1]
  /\ firstn 2 (skipn 16 (fileEntry MiB sampleClock)) = [140; 1].
Proof. repeat split; vm_compute; reflexivity. Qed.

Lemma fatTime_spec (c : Clock) :
  0 <= second c < 60 -> 0 <= minute c < 60 -> 0 <= hour c < 24 ->
  fatTime c = spec_fatTime c.
Proof.
  intros Hs Hm Hh.
  assert (All : forallb (fun h => forallb (fun m => forallb (timeAgrees h m)
                           (zrange 0 60)) (zrange 0 60)) (zrange 0 24) = true)
    by (vm_compute; reflexivity).
  pose proof (forallb_zrange _ _ _ All (hour c) ltac:(simpl; lia)) as A1.
  pose proof (forallb_zrange _ _ _ A1 (minute c) ltac:(simpl; lia)) as A2.
  pose proof (forallb_zrange _ _ _ A2 (second c) ltac:(simpl; lia)) as A3.
  apply Z.eqb_eq in A3. exact A3.
Qed.

(** Both directory entries carry the same time and date bytes, at the
    creation (14-17), access (18-19) and modification (22-25) fields. *)
Lemma timestamps_shared (size : Z) (c : Clock) :
  firstn 12 (skipn 14 (rootDir c)) = firstn 12 (skipn 14 (fileEntry size c))
  /\ firstn 12 (skipn 14 (rootDir c)) =
       [tlo c; thi c; dlo c; dhi c; dlo c; dhi c; 0; 0;
        tlo c; thi c; dlo c; dhi c].
Proof. split; reflexivity. Qed.

(** ** The CHS codec *)

(** The packing of [fillChs] is the packing of the specification, applied
    to the number it is given. *)
Lemma chs_bits (c : Z) :
  Z.land (Z.shiftr c 2) 192 = Z.shiftl (Z.land (Z.shiftr c 8) 3) 6.
Proof.
  apply Z.bits_inj'. intros n Hn.
  rewrite Z.land_spec, Z.shiftr_spec by lia.
  destruct (Z.ltb_spec n 6) as [Hlt|Hge].
  - rewrite Z.shiftl_spec_low by lia.
    assert (H: n = 0 \/ n = 1 \/ n = 2 \/ n = 3 \/ n = 4 \/ n = 5) by lia.
    destruct H as [->|[->|[->|[->|[->| ->]]]]];
      rewrite Bool.andb_false_r; reflexivity.
  - rewrite Z.shiftl_spec, Z.land_spec, Z.shiftr_spec by lia.
    replace (n - 6 + 8) with (n + 2) by lia.
    f_equal.
    destruct (Z.eq_dec n 6) as [->|]; [reflexivity|].
    destruct (Z.eq_dec n 7) as [->|]; [reflexivity|].
    rewrite (Z.bits_above_log2 192 n) by (simpl; lia).
    rewrite (Z.bits_above_log2 3 (n - 6)) by (simpl; lia).
    reflexivity.
Qed.

Lemma fillChs_spec (NH NS position : Z) :
  1 <= NS <= 63 -> 1 <= NH <= 256 ->
  0 <= position -> position / (NH * NS) < 2 ^ 31 ->
  fillChs NH NS position = spec_chs NH NS position.
Proof.
  intros HS HH Hp Hc. unfold fillChs, spec_chs.
  assert (Hhead : 0 <= (position / NS) mod NH < 256)
    by (pose proof (Z.mod_pos_bound (position / NS) NH); lia).
  assert (Hsec : 0 <= position mod NS < 63)
    by (pose proof (Z.mod_pos_bound position NS); lia).
  assert (Hcyl : 0 <= position / (NH * NS))
    by (apply Z.div_pos; nia).
  rewrite !i32_small by lia.
  rewrite !u8_land, chs_bits.
  rewrite Z.land_lor_distr_l, <- !Z.land_assoc.
  change (Z.land 255 255) with 255. change (Z.land 63 255) with 63.
  rewrite Z.shiftl_land, <- Z.land_assoc.
  change (Z.land (Z.shiftl 3 6) 255) with (Z.shiftl 3 6).
  rewrite <- Z.shiftl_land.
  f_equal.
  change 255 with (Z.ones 8). rewrite Z.land_ones by lia.
  apply Z.mod_small. simpl. lia.
Qed.

Lemma fillChs_any_geometry (NH NS : Z) :
  1 <= NH <= 256 -> 1 <= NS <= 63 ->
  chsStart (buildEntry NH NS 512 512) <> spec_chs NH NS (512 / SECTOR_SIZE).
Proof.
  intros HH HS.
  assert (All : forallb (fun h => forallb (chsDiffers h) (zrange 1 63))
                        (zrange 1 256) = true)
    by (vm_compute; reflexivity).
  pose proof (forallb_zrange _ _ _ All NH ltac:(simpl; lia)) as A1.
  pose proof (forallb_zrange _ _ _ A1 NS ltac:(simpl; lia)) as A2.
  unfold chsDiffers in A2.
  destruct (list_eq_dec Z.eq_dec _ _) as [|Hne]; [discriminate|exact Hne].
Qed.

(** C2: the CHS fields of an appended entry are claimed to encode the
    sector index [offset / 512] (and that of [offset + size]).  The source
    hands the byte offset itself to [fillChs]: under the conventional
    geometry of 255 heads and 63 sectors per track, a partition at byte
    offset 1 MiB of size 256 MiB gets the CHS bytes of "sector" 1048576
    instead of those of sector 2048, at both ends. *)
Theorem addPartition_chs_of_byte_offset :
  let e := buildEntry 255 63 MiB (256 * MiB) in
  chsStart e = [69; 5; 65]
  /\ spec_chs 255 63 (MiB / SECTOR_SIZE) = [32; 33; 0]
  /\ chsStart e = spec_chs 255 63 MiB
  /\ chsEnd e = [154; 85; 134]
  /\ spec_chs 255 63 ((MiB + 256 * MiB) / SECTOR_SIZE) = [194; 35; 32]
  /\ chsEnd e = spec_chs 255 63 (MiB + 256 * MiB).
Proof. repeat split. Qed.

(** ** The monad *)

Lemma bind_Done {A B} (m : M A) (k : A -> M B) s a s' :
  m s = (Done a, s') -> bind m k s = k a s'.
Proof. intros H. unfold bind. rewrite H. reflexivity. Qed.

(** ** Writing to a device that transfers everything *)

Lemma written_sys_write (buf : list Z) (d : Device) :
  dev_script d = [] ->
  sys_write buf d =
    (extent buf,
     {| dev_data := store (dev_data d) (dev_pos d) buf;
        dev_pos := dev_pos d + extent buf;
        dev_script := [];
        dev_trace := buf :: dev_trace d |}).
Proof.
  intros Hs. unfold sys_write, transfer, extent. rewrite Hs.
  destruct (Z.ltb_spec (Z.of_nat (length buf)) 0) as [H|H]; [lia|].
  rewrite Nat2Z.id, firstn_all. reflexivity.
Qed.

Lemma extent_app (a b : list Z) : extent (a ++ b) = extent a + extent b.
Proof. unfold extent. rewrite length_app. lia. Qed.

Lemma extent_nonneg (a : list Z) : 0 <= extent a.
Proof. unfold extent. lia. Qed.

Lemma extent_zeros (n : Z) : 0 <= n -> extent (zeros n) = n.
Proof. intros H. unfold extent, zeros. rewrite repeat_length. lia. Qed.

Lemma zeros_add (a b : Z) : 0 <= a -> 0 <= b -> zeros (a + b) = zeros a ++ zeros b.
Proof.
  intros Ha Hb. unfold zeros. rewrite Z2Nat.inj_add by assumption.
  apply repeat_app.
Qed.

Lemma zeros_nonpos (n : Z) : n <= 0 -> zeros n = [].
Proof.
  intros H. unfold zeros. destruct n; try reflexivity. lia.
Qed.

Lemma emits_ret {A} (a : A) : emits (ret a) [].
Proof.
  intros s Hs. exists a, s, [], []. unfold extent.
  cbn [ret app rev concat length Z.of_nat].
  rewrite !Z.add_0_r. repeat (split; [solve [auto]|]).
  intros Hc. rewrite u64_small by exact Hc. reflexivity.
Qed.

Lemma emits_bind {A B} (m : M A) (k : A -> M B) b1 b2 :
  emits m b1 -> (forall a, emits (k a) b2) -> emits (bind m k) (b1 ++ b2).
Proof.
  intros Hm Hk s Hs.
  destruct (Hm s Hs)
    as (a & s1 & tr1 & rep1 & E1 & I1 & T1 & C1 & P1 & R1 & L1 & F1 & N1 & M1 & B1).
  destruct (Hk a s1 I1)
    as (b & s2 & tr2 & rep2 & E2 & I2 & T2 & C2 & P2 & R2 & L2 & F2 & N2 & M2 & B2).
  exists b, s2, (tr2 ++ tr1), (rep2 ++ rep1).
  rewrite (bind_Done _ _ _ _ _ E1).
  repeat split; auto.
  - rewrite T2, T1, app_assoc. reflexivity.
  - rewrite rev_app_distr, concat_app, C1, C2. reflexivity.
  - rewrite P2, P1, extent_app. lia.
  - rewrite R2, R1, app_assoc. reflexivity.
  - rewrite !length_app. lia.
  - apply Forall_app. split; [|exact F1].
    rewrite M1 in F2. exact F2.
  - congruence.
  - congruence.
  - intros Hc. specialize (B1 Hc).
    rewrite B2, B1, u64_add_l, extent_app.
    + f_equal. lia.
    + rewrite B1. unfold u64. apply Z.mod_pos_bound. lia.
Qed.

Lemma emits_seq {A B} (m : M A) (k : M B) b1 b2 :
  emits m b1 -> emits k b2 -> emits (bind m (fun _ => k)) (b1 ++ b2).
Proof. intros Hm Hk. apply emits_bind; auto. Qed.

Lemma writeBytes_ideal (buf : list Z) (s : BlockDevice) :
  ideal s ->
  writeBytes buf s =
    (Done tt,
     {| m_fd := {| dev_data := store (dev_data (m_fd s)) (dev_pos (m_fd s)) buf;
                   dev_pos := dev_pos (m_fd s) + extent buf;
                   dev_script := [];
                   dev_trace := buf :: dev_trace (m_fd s) |};
        m_entries := m_entries s;
        m_bytesWritten := u64 (m_bytesWritten s + extent buf);
        m_totalBytes := m_totalBytes s;
        progress := (u64 (m_bytesWritten s + extent buf), m_totalBytes s)
                    :: progress s |}).
Proof.
  intros Hs. unfold writeBytes, bind, syscall.
  rewrite (written_sys_write buf (m_fd s) Hs).
  rewrite Z.eqb_refl. reflexivity.
Qed.

Lemma emits_writeBytes (buf : list Z) : emits (writeBytes buf) buf.
Proof.
  intros s Hs. rewrite (writeBytes_ideal buf s Hs).
  eexists tt, _, [buf], [_]. repeat split; simpl.
  - apply app_nil_r.
  - repeat constructor.
Qed.

(** The zero bytes written by [n] iterations of the loop of
    [writeZeros] from position [i]. *)
Lemma emits_writeZeros_loop (n : nat) :
  forall i size,
    n = Z.to_nat ((size - i + CHUNK_SIZE - 1) / CHUNK_SIZE) ->
    emits (writeZeros_loop n i size) (zeros (size - i)).
Proof.
  unfold CHUNK_SIZE. induction n as [|n IH]; intros i size Hn.
  - assert (size - i <= 0).
    { destruct (Z.le_gt_cases (size - i) 0) as [|Hpos]; [assumption|].
      assert (1 <= (size - i + 512 - 1) / 512)
        by (apply Z.div_le_lower_bound; lia).
      lia. }
    rewrite zeros_nonpos by assumption. apply emits_ret.
  - assert (Hpos : 0 < size - i).
    { destruct (Z.lt_ge_cases 0 (size - i)) as [|Hle]; [assumption|].
      assert ((size - i + 512 - 1) / 512 < 1)
        by (apply Z.div_lt_upper_bound; lia).
      lia. }
    assert (Hrest : n = Z.to_nat ((size - (i + 512) + 512 - 1) / 512)).
    { replace (size - i + 512 - 1) with (size - (i + 512) + 512 - 1 + 1 * 512)
        in Hn by lia.
      rewrite Z.div_add in Hn by lia.
      assert (-1 <= (size - (i + 512) + 512 - 1) / 512)
        by (apply Z.div_le_lower_bound; lia).
      lia. }
    specialize (IH (i + 512) size Hrest).
    set (chunk := Z.min 512 (size - i)).
    assert (Hsplit : zeros (size - i) = zeros chunk ++ zeros (size - (i + 512))).
    { subst chunk. destruct (Z.le_gt_cases 512 (size - i)) as [Hbig|Hsmall].
      - rewrite Z.min_l by lia.
        rewrite <- zeros_add by lia. f_equal. lia.
      - rewrite Z.min_r by lia.
        rewrite (zeros_nonpos (size - (i + 512))) by lia.
        rewrite app_nil_r. reflexivity. }
    rewrite Hsplit. cbn [writeZeros_loop].
    intros s Hs.
    destruct (emits_seq (writeBytes (zeros chunk)) _ _ _
                        (emits_writeBytes (zeros chunk)) IH s Hs)
      as (a & s' & tr & rep & E & Rest).
    exists a, s', tr, rep. split; [|exact Rest].
    rewrite <- E. change CHUNK_SIZE with 512. fold chunk.
    unfold writeBytes, syscall, bind.
    rewrite (written_sys_write (zeros chunk) (m_fd s) Hs).
    rewrite Z.eqb_refl. simpl negb. cbv iota.
    destruct (Z.ltb_spec (extent (zeros chunk)) 0) as [Hneg|_];
      [pose proof (extent_nonneg (zeros chunk)); lia|].
    reflexivity.
Qed.

Lemma writeZeros_bounded (size : Z) :
  size <= 2 ^ 64 - CHUNK_SIZE ->
  writeZeros size
  = writeZeros_loop (Z.to_nat ((size + CHUNK_SIZE - 1) / CHUNK_SIZE)) 0 size.
Proof.
  intros H. unfold writeZeros.
  destruct (Z.leb_spec size (2 ^ 64 - CHUNK_SIZE)) as [_|Hgt]; [reflexivity|lia].
Qed.

Lemma emits_writeZeros (size : Z) :
  size <= 2 ^ 64 - CHUNK_SIZE -> emits (writeZeros size) (zeros size).
Proof.
  intros H. rewrite (writeZeros_bounded size H).
  replace (zeros size) with (zeros (size - 0)) by (f_equal; lia).
  apply emits_writeZeros_loop. f_equal. f_equal. lia.
Qed.

(** The length of a zero fill is within the range of the bounded loop. *)
Ltac zeros_fit := solve [assumption | vm_compute; discriminate].

(** ** What the formatter writes *)

Lemma emits_writeChain (n : nat) :
  forall cluster, emits (writeChain n cluster) (chainBytes n cluster).
Proof.
  induction n as [|n IH]; intros cluster; cbn [writeChain chainBytes].
  - apply emits_ret.
  - apply emits_seq; [apply emits_writeBytes | apply IH].
Qed.

Lemma emits_writeBootSector (size : Z) (c : Clock) :
  emits (writeBootSector size c) (bootBlock size c).
Proof.
  unfold writeBootSector, bootBlock.
  repeat (apply emits_seq;
          [first [apply emits_writeBytes
                 | apply emits_writeZeros; zeros_fit]|]).
  apply emits_writeBytes.
Qed.

Lemma emits_writeReserved (size : Z) (c : Clock) :
  emits (writeReserved size c) (reservedArea size c).
Proof.
  unfold writeReserved, reservedArea, fsinfoSector.
  rewrite <- !app_assoc.
  repeat (apply emits_seq;
          [first [apply emits_writeBytes
                 | apply emits_writeZeros; zeros_fit
                 | apply emits_writeBootSector]|]).
  apply emits_writeZeros; zeros_fit.
Qed.

Lemma fatUsed_nonneg (size : Z) : 0 <= fatUsed size.
Proof. unfold fatUsed, u64. apply Z.mod_pos_bound. lia. Qed.

(** The padding of a FAT that has room for the chain. *)
Lemma fatPadding_fits (size : Z) :
  fatUsed size <= SECTOR_SIZE * fatlength size ->
  SECTOR_SIZE * fatlength size <= 2 ^ 64 - CHUNK_SIZE ->
  u64 (SECTOR_SIZE * fatlength size - fatUsed size)
  = SECTOR_SIZE * fatlength size - fatUsed size
  /\ SECTOR_SIZE * fatlength size - fatUsed size <= 2 ^ 64 - CHUNK_SIZE.
Proof.
  intros Hroom Hfit. pose proof (fatUsed_nonneg size) as H0.
  unfold CHUNK_SIZE in *.
  split; [apply u64_small|]; lia.
Qed.

Lemma emits_writeFat (size : Z) :
  fatUsed size <= SECTOR_SIZE * fatlength size ->
  SECTOR_SIZE * fatlength size <= 2 ^ 64 - CHUNK_SIZE ->
  emits (writeFat size) (fatCopy size).
Proof.
  intros Hroom Hfit.
  destruct (fatPadding_fits size Hroom Hfit) as [E B].
  unfold writeFat, fatCopy.
  repeat (apply emits_seq;
          [first [apply emits_writeBytes | apply emits_writeChain]|]).
  rewrite E. apply emits_writeZeros. exact B.
Qed.

(** The lengths of the zero fills, for partitions of 1 MiB to 2 TiB. *)
Lemma zero_fills_fit (size : Z) (c : Clock) :
  MiB <= size < 2 ^ 41 ->
  SECTOR_SIZE * fatlength size <= 2 ^ 64 - CHUNK_SIZE
  /\ u64 (clusterSize size - extent (rootDir c) - extent (fileEntry size c))
     <= 2 ^ 64 - CHUNK_SIZE
  /\ fileZeros size <= 2 ^ 64 - CHUNK_SIZE.
Proof.
  intros H.
  destruct (layout_facts size H)
    as (spc & cl & x & Es & Hs & Ecs & Ecl & Hcl0 & Hcl & Hx & Hfl & Efl & Eh).
  unfold MiB in H. unfold SECTOR_SIZE, CHUNK_SIZE.
  change (extent (rootDir c)) with 32.
  change (extent (fileEntry size c)) with 32.
  rewrite Ecs. rewrite (u64_small (512 * spc - 32 - 32)) by lia.
  unfold fileZeros. lia.
Qed.

Lemma emits_writeData (size : Z) (c : Clock) :
  MiB <= size < 2 ^ 41 ->
  fatUsed size <= SECTOR_SIZE * fatlength size ->
  emits (writeData size c) (dataArea size c).
Proof.
  intros H Hroom. destruct (zero_fills_fit size c H) as (Hfat & Hdir & Hfile).
  unfold writeData, dataArea. change (Z.to_nat NR_FATS) with 2%nat.
  cbn [repeatM].
  apply emits_seq.
  - apply emits_seq; [apply emits_writeFat; assumption|].
    apply emits_seq; [apply emits_writeFat; assumption|apply emits_ret].
  - repeat (apply emits_seq;
            [first [apply emits_writeBytes
                   | apply emits_writeZeros; zeros_fit]|]).
    apply emits_writeZeros; zeros_fit.
Qed.

Lemma ideal_seek (s : BlockDevice) :
  ideal s -> seekRefused (dev_script (m_fd s)) = false.
Proof. intros Hs. rewrite Hs. reflexivity. Qed.

(** The seek of an offset that is not negative, on a device that does
    not refuse it. *)
Lemma sys_lseek_performed (position : Z) (d : Device) :
  0 <= i64 position -> seekRefused (dev_script d) = false ->
  sys_lseek position d
  = (i64 position,
     {| dev_data := dev_data d; dev_pos := i64 position;
        dev_script := dev_script d; dev_trace := dev_trace d |}).
Proof.
  intros Hp Hq. unfold sys_lseek. rewrite Hq.
  destruct (Z.ltb_spec (i64 position) 0) as [Hneg|_]; [lia|reflexivity].
Qed.

(** Lines 255-257 on a device that accepts the seek. *)
Lemma format_start (offset size : Z) (c : Clock) (s : BlockDevice) :
  seekRefused (dev_script (m_fd s)) = false ->
  0 <= i64 offset ->
  formatOverlayPartition offset size c s =
    (writeReserved size c ;; writeData size c)
      {| m_fd := {| dev_data := dev_data (m_fd s); dev_pos := i64 offset;
                    dev_script := dev_script (m_fd s);
                    dev_trace := dev_trace (m_fd s) |};
         m_entries := m_entries s;
         m_bytesWritten := 0;
         m_totalBytes := u64 (headerSize size + fileZeros size);
         progress := progress s |}.
Proof.
  intros Hq Hoff.
  unfold formatOverlayPartition, seekto, setCounters, syscall.
  unfold bind at 1 2 3. cbv beta.
  rewrite (sys_lseek_performed offset (m_fd s) Hoff Hq).
  destruct (Z.ltb_spec (i64 offset) 0) as [Hneg|_]; [lia|].
  reflexivity.
Qed.

Lemma extent_bootBlock (size : Z) (c : Clock) :
  extent (bootBlock size c) = SECTOR_SIZE.
Proof. reflexivity. Qed.

Lemma extent_fsinfoSector (size : Z) :
  extent (fsinfoSector size) = SECTOR_SIZE.
Proof. reflexivity. Qed.

Lemma extent_reservedArea (size : Z) (c : Clock) :
  extent (reservedArea size c) = RESERVED_SECTORS * SECTOR_SIZE.
Proof.
  unfold reservedArea. rewrite !extent_app, !extent_bootBlock, extent_fsinfoSector.
  rewrite !extent_zeros by (unfold SECTOR_SIZE; lia). reflexivity.
Qed.

Lemma reservedArea_sectors (size : Z) (c : Clock) :
  let R := reservedArea size c in
  sectorOf R 0 = bootBlock size c
  /\ sectorOf R 1 = fsinfoSector size
  /\ (forall k, (2 <= k < 6)%nat -> sectorOf R k = zeros SECTOR_SIZE)
  /\ sectorOf R 6 = bootBlock size c
  /\ skipn (512 * 7) R = zeros (SECTOR_SIZE * 25).
Proof.
  cbv zeta. repeat split.
  - intros k Hk.
    assert (H : (k = 2 \/ k = 3 \/ k = 4 \/ k = 5)%nat) by lia.
    destruct H as [->|[->|[->| ->]]]; reflexivity.
Qed.

(** ** Reserved sectors *)

(** C5 as stated is refuted on a 1 MiB partition: the fifth sector
    written (index 4) is still padding, not the backup boot sector. *)
Lemma gapOfTwoSectors_refuted :
  ~ gapOfTwoSectors
      (written (m_fd (snd (formatOverlayPartition MiB MiB sampleClock
                             (newBlockDevice (blankDevice [])))))).
Proof.
  intros (_ & _ & H).
  apply (f_equal (hd 0)) in H.
  vm_compute in H. discriminate H.
Qed.

(** C5, amended: on a device that performs the seek and takes every
    write in full, and for an offset that [off_t] holds, the formatter
    first writes the boot sector (one sector), the FSInfo sector (one
    sector), four sectors of zero padding (reserved sectors 2-5), the
    backup copy of the boot sector (sector 6) and 25 sectors of zero
    padding, which completes the 32 reserved sectors; it then goes on
    with the FAT copies from the state so reached. *)
Theorem reserved_sectors_layout (offset size : Z) (c : Clock) (s : BlockDevice) :
  ideal s -> 0 <= i64 offset ->
  exists s1,
    formatOverlayPartition offset size c s = writeData size c s1
    /\ ideal s1
    /\ written (m_fd s1) =
         written (m_fd s)
         ++ bootBlock size c ++ fsinfoSector size ++ zeros (SECTOR_SIZE * 4)
         ++ bootBlock size c ++ zeros (SECTOR_SIZE * 25)
    /\ extent (bootBlock size c) = SECTOR_SIZE
    /\ extent (fsinfoSector size) = SECTOR_SIZE
    /\ sectorOf (reservedArea size c) 6 = bootBlock size c
    /\ dev_pos (m_fd s1) = i64 offset + RESERVED_SECTORS * SECTOR_SIZE.
Proof.
  intros Hs Hoff.
  rewrite (format_start offset size c s (ideal_seek s Hs) Hoff).
  set (s0 := {| m_fd := _ |}).
  assert (Hs0 : ideal s0) by exact Hs.
  destruct (emits_writeReserved size c s0 Hs0)
    as (a & s1 & tr & rep & E & I & T & C & P & _).
  exists s1. rewrite (bind_Done _ _ _ _ _ E).
  repeat split; auto.
  unfold written. rewrite T, rev_app_distr, concat_app, C. reflexivity.
Qed.

Lemma reserved_sectors_layout_witness :
  exists s1,
    formatOverlayPartition MiB MiB sampleClock (newBlockDevice (blankDevice []))
      = writeData MiB sampleClock s1
    /\ ideal s1
    /\ written (m_fd s1) =
         written (m_fd (newBlockDevice (blankDevice [])))
         ++ bootBlock MiB sampleClock ++ fsinfoSector MiB
         ++ zeros (SECTOR_SIZE * 4)
         ++ bootBlock MiB sampleClock ++ zeros (SECTOR_SIZE * 25)
    /\ extent (bootBlock MiB sampleClock) = SECTOR_SIZE
    /\ extent (fsinfoSector MiB) = SECTOR_SIZE
    /\ sectorOf (reservedArea MiB sampleClock) 6 = bootBlock MiB sampleClock
    /\ dev_pos (m_fd s1) = i64 MiB + RESERVED_SECTORS * SECTOR_SIZE.
Proof.
  apply (reserved_sectors_layout MiB MiB sampleClock
           (newBlockDevice (blankDevice []))).
  - reflexivity.
  - vm_compute. discriminate.
Defined.

(** ** Short writes *)

Lemma physicallyWritten_acc (tr : list (list Z)) (acc : Z) :
  fold_left (fun a b => a + extent b) tr acc
  = acc + extent (concat (rev tr)).
Proof.
  revert acc. induction tr as [|b tr IH]; intros acc; simpl.
  - unfold extent. simpl. lia.
  - rewrite IH, concat_app, !extent_app. simpl. rewrite app_nil_r. lia.
Qed.

Lemma physicallyWritten_written (d : Device) :
  physicallyWritten d = extent (written d).
Proof. unfold physicallyWritten, written. apply physicallyWritten_acc. Qed.

(** A chunk of zeros that the device takes only in part does not make
    [writeZeros] throw. *)
Lemma writeZeros_short_chunk (size count : Z) (rest : list Z) (s : BlockDevice) :
  0 < size <= CHUNK_SIZE -> 0 <= count ->
  dev_script (m_fd s) = count :: rest ->
  fst (writeZeros size s) = Done tt.
Proof.
  unfold CHUNK_SIZE. intros Hsize Hcount Hscript.
  rewrite writeZeros_bounded by (unfold CHUNK_SIZE; lia). unfold CHUNK_SIZE.
  assert (E : (size + 512 - 1) / 512 = 1)
    by (symmetry; apply Z.div_unique with (r := size - 1); lia).
  rewrite E. change (Z.to_nat 1) with 1%nat. cbn [writeZeros_loop].
  unfold bind, syscall, sys_write, transfer. rewrite Hscript.
  destruct (Z.ltb_spec count 0) as [|_]; [lia|].
  set (len := Z.min count _).
  assert (Hlen : (len <? 0) = false) by (apply Z.ltb_ge; subst len; lia).
  rewrite Hlen. cbv beta iota. rewrite Hlen. reflexivity.
Qed.

(** C6: every short write is claimed to be fatal.  [writeZeros] only
    tests [len < 0]: when the device takes 10 bytes of the first 512-byte
    chunk, it goes on with the next chunk and returns normally, having
    written 522 of the 1024 bytes, where the structured writes
    ([writeBytes] and the entry write of [addPartition]) throw on the same
    device. *)
Theorem writeZeros_short_write_not_fatal :
  let s := newBlockDevice (blankDevice [10]) in
  fst (writeZeros 1024 s) = Done tt
  /\ physicallyWritten (m_fd (snd (writeZeros 1024 s))) = 522
  /\ m_bytesWritten (snd (writeZeros 1024 s)) = 522
  /\ fst (writeBytes (zeros 512) s) = Thrown WriteFailure
  /\ fst (addPartition 255 63 MiB MiB s) = Thrown WriteFailure.
Proof. repeat split; vm_compute; reflexivity. Qed.

(** ** The bytes written in all *)

Lemma extent_chainBytes (n : nat) (cluster : Z) :
  extent (chainBytes n cluster) = 4 * Z.of_nat n.
Proof.
  revert cluster. induction n as [|n IH]; intros cluster.
  - reflexivity.
  - cbn [chainBytes]. rewrite extent_app, IH.
    change (extent (le32 (u32 cluster))) with 4. lia.
Qed.

(** The size of the data area when the FAT has room for the chain. *)
Lemma extent_dataArea (size : Z) (c : Clock) :
  MiB <= size < 2 ^ 41 ->
  fatUsed size <= SECTOR_SIZE * fatlength size ->
  extent (dataArea size c)
  = 2 * (SECTOR_SIZE * fatlength size) + clusterSize size + fileZeros size.
Proof.
  intros H Hroom.
  destruct (layout_facts size H)
    as (spc & cl & x & Es & Hs & Ecs & Ecl & Hcl0 & Hcl & Hx & Hfl & Efl & Eh).
  destruct (layout_fits size H) as (F1 & F2 & F3 & F4).
  unfold MiB in H.
  assert (Hq : 0 <= maxFileSize size / (512 * spc) <= maxFileSize size).
  { split; [apply Z.div_pos; lia|].
    apply Z.div_le_upper_bound; nia. }
  assert (Enf : nextFreeCluster size = maxFileSize size / (512 * spc) + 4).
  { unfold nextFreeCluster, FIRST_CLUSTER. rewrite Ecs.
    rewrite (u64_small (512 * spc)) by lia.
    rewrite u64_small by lia. lia. }
  assert (Eused : fatUsed size = 4 * nextFreeCluster size).
  { unfold fatUsed, FIRST_CLUSTER.
    change (extent fat) with 12. change (extent fatEof) with 4.
    rewrite Enf.
    rewrite (u64_small ((maxFileSize size / (512 * spc) + 4 - (3 + 1)) * 4)) by lia.
    rewrite (u64_small (12 + _)) by lia.
    rewrite u64_small by lia. lia. }
  unfold SECTOR_SIZE in *.
  assert (Ez : 0 <= fileZeros size) by (unfold fileZeros; lia).
  unfold dataArea, fatCopy.
  rewrite !extent_app.
  rewrite extent_chainBytes.
  change (extent fat) with 12. change (extent fatEof) with 4.
  change (extent (rootDir c)) with 32.
  change (extent (fileEntry size c)) with 32.
  change (extent []) with 0.
  rewrite Ecs in *. unfold SECTOR_SIZE, FIRST_CLUSTER.
  rewrite (u64_small (512 * spc - 32 - 32)) by lia.
  rewrite !extent_zeros by lia.
  rewrite Z2Nat.id by lia.
  lia.
Qed.

(** The whole stream has [headerSize + fileZeros] bytes. *)
Lemma extent_stream (size : Z) (c : Clock) :
  MiB <= size < 2 ^ 41 ->
  fatUsed size <= SECTOR_SIZE * fatlength size ->
  extent (reservedArea size c ++ dataArea size c)
  = headerSize size + fileZeros size.
Proof.
  intros H Hroom.
  rewrite extent_app, extent_reservedArea, (extent_dataArea size c H Hroom).
  destruct (layout_facts size H)
    as (spc & cl & x & Es & Hs & Ecs & Ecl & Hcl0 & Hcl & Hx & Hfl & Efl & Eh).
  rewrite Eh, Ecs. unfold RESERVED_SECTORS, SECTOR_SIZE. lia.
Qed.

(** Fields of an explicit state. *)
Lemma m_fd_mk fd es bw tb pg :
  m_fd (Build_BlockDevice fd es bw tb pg) = fd.
Proof. reflexivity. Qed.

Lemma m_bytesWritten_mk fd es bw tb pg :
  m_bytesWritten (Build_BlockDevice fd es bw tb pg) = bw.
Proof. reflexivity. Qed.

Lemma m_totalBytes_mk fd es bw tb pg :
  m_totalBytes (Build_BlockDevice fd es bw tb pg) = tb.
Proof. reflexivity. Qed.

Lemma progress_mk fd es bw tb pg :
  progress (Build_BlockDevice fd es bw tb pg) = pg.
Proof. reflexivity. Qed.

Lemma dev_trace_mk da po sc tr :
  dev_trace (Build_Device da po sc tr) = tr.
Proof. reflexivity. Qed.

Create Rewrite HintDb state.
#[local] Hint Rewrite m_fd_mk m_bytesWritten_mk m_totalBytes_mk progress_mk
  dev_trace_mk : state.

(** On a device that transfers everything, and for a partition of 1 MiB
    to 2 TiB whose FAT has room for the cluster chain, the formatter
    returns after having written the reserved sectors and the data area,
    [headerSize + fileZeros] bytes; the counter, reset to 0 at the start,
    ends at that total, and every write was followed by one progress
    report against it. *)
Lemma format_total_ideal (offset size : Z) (c : Clock) (s : BlockDevice) :
  ideal s -> 0 <= i64 offset ->
  MiB <= size < 2 ^ 41 ->
  fatUsed size <= SECTOR_SIZE * fatlength size ->
  exists s' tr rep,
    formatOverlayPartition offset size c s = (Done tt, s')
    /\ dev_trace (m_fd s') = tr ++ dev_trace (m_fd s)
    /\ concat (rev tr) = reservedArea size c ++ dataArea size c
    /\ physicallyWritten (m_fd s')
       = physicallyWritten (m_fd s) + (headerSize size + fileZeros size)
    /\ m_totalBytes s' = headerSize size + fileZeros size
    /\ m_bytesWritten s' = headerSize size + fileZeros size
    /\ progress s' = rep ++ progress s
    /\ length rep = length tr
    /\ Forall (fun r => snd r = headerSize size + fileZeros size) rep.
Proof.
  intros Hs Hoff H Hroom.
  assert (Ht : 0 <= headerSize size + fileZeros size < 2 ^ 64).
  { destruct (layout_fits size H) as (F1 & F2 & F3 & F4).
    destruct (layout_facts size H)
      as (spc & cl & x & Es & Hsp & Ecs & Ecl & Hcl0 & Hcl & Hx & Hfl & Efl & Eh).
    assert (0 <= fileZeros size) by (unfold fileZeros; lia).
    unfold MiB in H. lia. }
  pose proof (extent_stream size c H Hroom) as Hlen.
  rewrite (format_start offset size c s (ideal_seek s Hs) Hoff).
  rewrite (u64_small _ Ht).
  match goal with
  | |- context [bind _ _ ?s0] =>
      destruct (emits_seq _ _ _ _ (emits_writeReserved size c)
                          (emits_writeData size c H Hroom) s0 Hs)
        as ([] & s' & tr & rep & E & I & T & C & P & R & L & F & N & M & B)
  end.
  autorewrite with state in T, R, F, M, B.
  exists s', tr, rep.
  split; [exact E|]. split; [exact T|]. split; [exact C|].
  split.
  { rewrite !physicallyWritten_written. unfold written.
    rewrite T, rev_app_distr, concat_app, extent_app, C, Hlen. reflexivity. }
  split; [exact M|].
  split.
  { rewrite B by lia. rewrite Z.add_0_l, Hlen.
    apply u64_small. exact Ht. }
  split; [exact R|]. split; [exact L|exact F].
Qed.

(** The lemma applies to a 1 MiB partition on a blank device. *)
Example format_total_1MiB :
  exists s',
    formatOverlayPartition MiB MiB sampleClock (newBlockDevice (blankDevice []))
      = (Done tt, s')
    /\ physicallyWritten (m_fd s') = 98816
    /\ m_bytesWritten s' = 98816.
Proof.
  destruct (format_total_ideal MiB MiB sampleClock
              (newBlockDevice (blankDevice [])))
    as (s' & tr & rep & E & _ & _ & W & _ & B & _).
  - reflexivity.
  - vm_compute. discriminate.
  - vm_compute. split; [discriminate|reflexivity].
  - vm_compute. discriminate.
  - exists s'. split; [exact E|]. split.
    + rewrite W. vm_compute. reflexivity.
    + rewrite B. vm_compute. reflexivity.
Qed.

(** The hypothesis on the FAT is needed: for some sizes the cluster
    chain is one link longer than the FAT, and the padding length
    [SECTOR_SIZE * fatlength - used] of line 294 wraps around. *)
Example fat_without_room :
  fatUsed 798483456 = 778244
  /\ SECTOR_SIZE * fatlength 798483456 = 778240.
Proof. split; vm_compute; reflexivity. Qed.

(** C9: the bytes physically written by a call that completes are
    claimed to number [headerSize + min(maxFileSize, 65536)].  On a 1 MiB
    partition whose device takes only 100 of the 291 zero bytes that pad
    the boot code (the third write), [formatOverlayPartition] returns
    normally after 98625 bytes, against a total of 98816. *)
Theorem format_short_write_total :
  let s := newBlockDevice (blankDevice [90; 129; 100]) in
  let r := formatOverlayPartition MiB MiB sampleClock s in
  fst r = Done tt
  /\ physicallyWritten (m_fd (snd r)) = 98625
  /\ headerSize MiB + Z.min (maxFileSize MiB) 65536 = 98816
  /\ m_totalBytes (snd r) = 98816
  /\ hd (0, 0) (progress (snd r)) = (98625, 98816).
Proof. repeat split; vm_compute; reflexivity. Qed.

(** ** The partition table *)

Lemma addPartition_full_table (NH NS offset size : Z) (s : BlockDevice) :
  MAX_PARTITIONS <= Z.of_nat (length (m_entries s)) < 2 ^ 31 - 1 ->
  addPartition NH NS offset size s = (Thrown TableFull, s).
Proof.
  unfold MAX_PARTITIONS. intros H.
  unfold addPartition, bind, entriesSize.
  rewrite i32_small by lia.
  destruct (Z.gtb_spec (Z.of_nat (length (m_entries s)) + 1) MAX_PARTITIONS)
    as [_|Hle]; [reflexivity|unfold MAX_PARTITIONS in Hle; lia].
Qed.

(** C7: with four entries in the table, [addPartition] throws
    "Partition table is full" before it touches the entry list or the
    device: the object and the device are those it was called on. *)
Theorem addPartition_table_full (NH NS offset size : Z) (s : BlockDevice) :
  length (m_entries s) = 4%nat ->
  addPartition NH NS offset size s = (Thrown TableFull, s).
Proof.
  intros H. apply addPartition_full_table. rewrite H.
  unfold MAX_PARTITIONS. change (Z.of_nat 4) with 4. lia.
Qed.

Lemma addPartition_table_full_witness :
  addPartition 255 63 (5 * MiB) MiB fourEntries = (Thrown TableFull, fourEntries).
Proof. apply (addPartition_table_full 255 63 (5 * MiB) MiB fourEntries). reflexivity. Defined.

(** *** Reading back what was stored *)

Lemma load_length (d : Z -> Z) (p : Z) (n : nat) : length (load d p n) = n.
Proof. unfold load. rewrite length_map, length_seq. reflexivity. Qed.

Lemma load_store_same (d : Z -> Z) (p : Z) (buf : list Z) :
  load (store d p buf) p (length buf) = buf.
Proof.
  apply nth_ext with (d := 0) (d' := 0).
  - apply load_length.
  - intros i Hi. rewrite load_length in Hi.
    unfold load.
    rewrite nth_indep with (d' := store d p buf (p + Z.of_nat 0))
      by (rewrite length_map, length_seq; exact Hi).
    rewrite (map_nth (fun i => store d p buf (p + Z.of_nat i))).
    rewrite seq_nth by exact Hi. simpl Nat.add.
    unfold store.
    destruct (Z.leb_spec p (p + Z.of_nat i)) as [_|]; [|lia].
    destruct (Z.ltb_spec (p + Z.of_nat i) (p + Z.of_nat (length buf)))
      as [_|]; [|lia].
    simpl. f_equal. lia.
Qed.

Lemma load_store_disjoint (d : Z -> Z) (p q : Z) (buf : list Z) (n : nat) :
  q + Z.of_nat n <= p \/ p + Z.of_nat (length buf) <= q ->
  load (store d p buf) q n = load d q n.
Proof.
  intros H. unfold load. apply map_ext_in. intros i Hi.
  apply in_seq in Hi. unfold store.
  destruct (Z.leb_spec p (q + Z.of_nat i)); simpl; [|reflexivity].
  destruct (Z.ltb_spec (q + Z.of_nat i) (p + Z.of_nat (length buf)));
    [lia|reflexivity].
Qed.

Lemma buildEntry_not_empty (NH NS offset size : Z) :
  isEmpty (buildEntry NH NS offset size) = false.
Proof.
  destruct (isEmpty (buildEntry NH NS offset size)) eqn:E; [|reflexivity].
  unfold isEmpty in E. rewrite forallb_forall in E.
  specialize (E 0xb). discriminate E.
  unfold buildEntry, fillChs. cbn [app In]. auto 6.
Qed.

(** The LBA and count fields of the assembled entry decode to the
    32-bit quotients. *)
Lemma buildEntry_lba_count (NH NS offset size : Z) :
  entryLba (buildEntry NH NS offset size) = u32 (offset / SECTOR_SIZE)
  /\ entryCount (buildEntry NH NS offset size) = u32 (size / SECTOR_SIZE).
Proof.
  unfold entryLba, entryCount.
  change (firstn 4 (skipn 8 (buildEntry NH NS offset size)))
    with (le32 (u32 (offset / SECTOR_SIZE))).
  change (firstn 4 (skipn 12 (buildEntry NH NS offset size)))
    with (le32 (u32 (size / SECTOR_SIZE))).
  split; apply le32_roundtrip; unfold u32; apply Z.mod_pos_bound; lia.
Qed.

(** *** [read] and [addPartition] on a device that transfers everything *)

Lemma slotsFrom_S (d : Z -> Z) (p : Z) (n : nat) :
  slotsFrom d p (S n) =
    (if isEmpty (load d p (Z.to_nat PARTITION_ENTRY_SIZE)) then []
     else [load d p (Z.to_nat PARTITION_ENTRY_SIZE)])
    ++ slotsFrom d (p + PARTITION_ENTRY_SIZE) n.
Proof.
  unfold slotsFrom. rewrite <- cons_seq, <- seq_shift.
  cbn [map filter]. rewrite map_map, Z.mul_0_r, Z.add_0_r.
  assert (E : map (fun i => load d (p + PARTITION_ENTRY_SIZE * Z.of_nat (S i))
                                 (Z.to_nat PARTITION_ENTRY_SIZE)) (seq 0 n)
              = map (fun i => load d (p + PARTITION_ENTRY_SIZE
                                      + PARTITION_ENTRY_SIZE * Z.of_nat i)
                                   (Z.to_nat PARTITION_ENTRY_SIZE)) (seq 0 n)).
  { apply map_ext. intros i. f_equal. lia. }
  rewrite E.
  destruct (isEmpty (load d p (Z.to_nat PARTITION_ENTRY_SIZE))); reflexivity.
Qed.

Lemma read_loop_ideal (n : nat) :
  forall s, ideal s ->
    read_loop n s =
      (Done tt,
       {| m_fd := {| dev_data := dev_data (m_fd s);
                     dev_pos := dev_pos (m_fd s)
                                + PARTITION_ENTRY_SIZE * Z.of_nat n;
                     dev_script := [];
                     dev_trace := dev_trace (m_fd s) |};
          m_entries := m_entries s
                       ++ slotsFrom (dev_data (m_fd s)) (dev_pos (m_fd s)) n;
          m_bytesWritten := m_bytesWritten s;
          m_totalBytes := m_totalBytes s;
          progress := progress s |}).
Proof.
  induction n as [|n IH]; intros s Hs.
  - destruct s as [[data pos script trace] entries bw tb pg].
    unfold ideal in Hs. simpl in Hs. subst script.
    unfold slotsFrom. simpl. rewrite app_nil_r, Z.add_0_r. reflexivity.
  - cbn [read_loop]. unfold bind at 1. unfold syscall, sys_read, transfer.
    rewrite Hs. change (PARTITION_ENTRY_SIZE <? 0) with false. cbv iota beta.
    cbn [fst snd]. rewrite Z.eqb_refl. cbn [negb].
    rewrite slotsFrom_S.
    assert (Hstep : dev_pos (m_fd s) + PARTITION_ENTRY_SIZE * Z.of_nat (S n)
                    = dev_pos (m_fd s) + PARTITION_ENTRY_SIZE
                      + PARTITION_ENTRY_SIZE * Z.of_nat n) by lia.
    destruct (forallb (fun c => c =? 0)
                (load (dev_data (m_fd s)) (dev_pos (m_fd s))
                      (Z.to_nat PARTITION_ENTRY_SIZE))) eqn:Hempty.
    + unfold isEmpty. rewrite Hempty. rewrite IH by reflexivity.
      cbn [m_fd dev_data dev_pos dev_trace m_entries m_bytesWritten
           m_totalBytes progress app].
      rewrite Hstep. reflexivity.
    + unfold isEmpty. rewrite Hempty.
      unfold bind, appendEntry. rewrite IH by reflexivity.
      cbn [m_fd dev_data dev_pos dev_trace m_entries m_bytesWritten
           m_totalBytes progress].
      rewrite <- app_assoc, Hstep. reflexivity.
Qed.

Lemma read_ideal (s : BlockDevice) :
  ideal s ->
  read s =
    (Done tt,
     {| m_fd := {| dev_data := dev_data (m_fd s);
                   dev_pos := PARTITION_ENTRY_OFFSET
                              + PARTITION_ENTRY_SIZE * MAX_PARTITIONS;
                   dev_script := [];
                   dev_trace := dev_trace (m_fd s) |};
        m_entries := m_entries s ++ onDisk (dev_data (m_fd s));
        m_bytesWritten := m_bytesWritten s;
        m_totalBytes := m_totalBytes s;
        progress := progress s |}).
Proof.
  intros Hs. unfold read, seekEntry.
  unfold bind at 1 2. unfold syscall.
  rewrite sys_lseek_performed
    by first [exact (ideal_seek s Hs) | vm_compute; discriminate].
  change (i64 (u64 (PARTITION_ENTRY_OFFSET + PARTITION_ENTRY_SIZE * 0)))
    with PARTITION_ENTRY_OFFSET.
  change (PARTITION_ENTRY_OFFSET <? 0) with false. cbv iota beta.
  unfold ret.
  rewrite read_loop_ideal by exact Hs.
  reflexivity.
Qed.

(** The slot written by [addPartition] on a table of [n] entries. *)
Lemma addPartition_ideal (NH NS offset size : Z) (s : BlockDevice) :
  ideal s -> (length (m_entries s) < 4)%nat ->
  let n := Z.of_nat (length (m_entries s)) in
  let at_ := PARTITION_ENTRY_OFFSET + PARTITION_ENTRY_SIZE * n in
  let entry := buildEntry NH NS offset size in
  addPartition NH NS offset size s =
    (Done (n + 1),
     {| m_fd := {| dev_data := store (dev_data (m_fd s)) at_ entry;
                   dev_pos := at_ + PARTITION_ENTRY_SIZE;
                   dev_script := [];
                   dev_trace := entry :: dev_trace (m_fd s) |};
        m_entries := m_entries s ++ [entry];
        m_bytesWritten := m_bytesWritten s;
        m_totalBytes := m_totalBytes s;
        progress := progress s |}).
Proof.
  intros Hs Hlen n at_ entry.
  assert (Hn : n = 0 \/ n = 1 \/ n = 2 \/ n = 3) by (subst n; lia).
  unfold addPartition. fold entry.
  unfold bind at 1. unfold entriesSize. fold n.
  assert (Hnum : i32 (n + 1) = n + 1) by (apply i32_small; lia).
  rewrite Hnum.
  destruct (Z.gtb_spec (n + 1) MAX_PARTITIONS) as [Hgt|_];
    [unfold MAX_PARTITIONS in Hgt; lia|].
  unfold bind at 1. unfold appendEntry.
  unfold bind at 1. unfold seekEntry.
  unfold bind at 1. unfold syscall at 1. unfold sys_lseek.
  cbn [m_fd].
  replace (n + 1 - 1) with n by lia. fold at_.
  assert (Hat : i64 (u64 at_) = at_).
  { subst at_. destruct Hn as [->|[->|[->| ->]]]; reflexivity. }
  rewrite Hat.
  assert (Hpos : (at_ <? 0) = false).
  { subst at_. destruct Hn as [->|[->|[->| ->]]]; reflexivity. }
  rewrite Hpos. cbv iota beta. rewrite (ideal_seek s Hs). cbv iota beta.
  rewrite Hpos. cbv iota beta.
  unfold ret. unfold bind, syscall. cbn [m_fd].
  rewrite written_sys_write by exact Hs.
  cbn [dev_data dev_pos dev_trace].
  rewrite Z.eqb_refl. reflexivity.
Qed.

(** *** Appending, then reading *)

Lemma slot_store_same (d : Z -> Z) (n : Z) (e : PartitionEntry) :
  length e = 16%nat ->
  slot (store d (PARTITION_ENTRY_OFFSET + PARTITION_ENTRY_SIZE * n) e) n = e.
Proof.
  intros H. unfold slot.
  change (Z.to_nat PARTITION_ENTRY_SIZE) with 16%nat. rewrite <- H.
  apply load_store_same.
Qed.

(** Storing one slot leaves the others as they were. *)
Lemma slot_store_other (d : Z -> Z) (n i : Z) (e : PartitionEntry) :
  length e = 16%nat -> 0 <= n -> 0 <= i -> i <> n ->
  slot (store d (PARTITION_ENTRY_OFFSET + PARTITION_ENTRY_SIZE * n) e) i
  = slot d i.
Proof.
  intros H Hn Hi Hne. unfold slot. apply load_store_disjoint.
  rewrite H. unfold PARTITION_ENTRY_SIZE.
  change (Z.of_nat (Z.to_nat 16)) with 16. change (Z.of_nat 16) with 16.
  lia.
Qed.

Lemma skipn_length_app {A} (l r : list A) : skipn (length l) (l ++ r) = r.
Proof.
  rewrite skipn_app, skipn_all, Nat.sub_diag. reflexivity.
Qed.

Lemma In_onDisk (d : Z -> Z) (n : Z) :
  0 <= n < 4 -> isEmpty (slot d n) = false -> In (slot d n) (onDisk d).
Proof.
  intros Hn He. unfold onDisk. apply filter_In. split.
  - apply in_map. simpl.
    assert (H : n = 0 \/ n = 1 \/ n = 2 \/ n = 3) by lia.
    intuition.
  - rewrite He. reflexivity.
Qed.

(** C8 as stated is refuted by an offset beyond 2 TiB: the LBA field has
    32 bits, and offset 2^41 reads back as LBA 0, not 2^32. *)
Lemma appendThenReadYields_refuted :
  ~ appendThenReadYields 255 63 (2 ^ 41) 512 (newBlockDevice (blankDevice [])).
Proof.
  intros (num & s1 & s2 & e & H1 & H2 & Hn & He & Hin & Hlba & Hcount).
  rewrite addPartition_ideal in H1 by (try reflexivity; simpl; lia).
  injection H1 as Hnum Hs1. subst s1.
  rewrite read_ideal in H2 by reflexivity.
  injection H2 as Hs2. subst s2 e num.
  vm_compute in Hlba. discriminate Hlba.
Qed.

(** C8, amended: for an offset and a size whose sector quotients fit the
    32-bit fields (offset and size below 2 TiB), size a positive multiple
    of 512 and fewer than four entries in the table, on a device that
    transfers everything: [addPartition] returns the 1-based position of
    the new entry, and the [read] that follows yields, from the slot just
    written, an entry whose LBA and sector count decode to [offset / 512]
    and [size / 512]. *)
Theorem appendPartition_then_readEntries (NH NS offset size : Z) (s : BlockDevice) :
  ideal s ->
  (length (m_entries s) < 4)%nat ->
  0 <= offset -> offset / SECTOR_SIZE < 2 ^ 32 ->
  0 < size -> size mod SECTOR_SIZE = 0 -> size / SECTOR_SIZE < 2 ^ 32 ->
  appendThenReadYields NH NS offset size s.
Proof.
  intros Hs Hlen Hoff Hlba Hsize Hal Hcount.
  pose proof (addPartition_ideal NH NS offset size s Hs Hlen) as Hadd.
  cbv zeta in Hadd.
  set (n := Z.of_nat (length (m_entries s))) in *.
  set (entry := buildEntry NH NS offset size) in *.
  set (s1 := {| m_fd := _ |}) in Hadd.
  assert (Hs1 : ideal s1) by reflexivity.
  exists (n + 1), s1. eexists. exists entry.
  split; [exact Hadd|].
  split; [apply (read_ideal s1 Hs1)|].
  split; [reflexivity|].
  assert (Hslot : slot (dev_data (m_fd s1)) n = entry)
    by (apply slot_store_same; reflexivity).
  cbn [m_fd dev_data].
  replace (n + 1 - 1) with n by lia.
  split; [symmetry; exact Hslot|].
  split.
  - cbn [m_entries]. rewrite skipn_length_app.
    rewrite <- Hslot. apply In_onDisk; [subst n; lia|].
    rewrite Hslot. apply buildEntry_not_empty.
  - destruct (buildEntry_lba_count NH NS offset size) as [E1 E2].
    fold entry in E1, E2. rewrite E1, E2.
    unfold SECTOR_SIZE in *.
    rewrite !u32_small; [auto| |];
      (split; [apply Z.div_pos; lia|assumption]).
Qed.

Lemma appendPartition_then_readEntries_witness :
  appendThenReadYields 255 63 MiB (256 * MiB) (newBlockDevice (blankDevice [])).
Proof.
  apply (appendPartition_then_readEntries 255 63 MiB (256 * MiB)
           (newBlockDevice (blankDevice [])));
    vm_compute; try reflexivity; try discriminate.
  - lia.
Defined.

(** *** Reading twice *)

Lemma onDisk_length (d : Z -> Z) : (length (onDisk d) <= 4)%nat.
Proof.
  unfold onDisk.
  etransitivity; [apply filter_length_le|]. simpl. lia.
Qed.

(** C10: [read] appends to [m_entries] without clearing it.  Two calls in
    a row on an unchanged device with [k] non-empty slots leave [2 * k]
    entries, each slot twice, and the next [addPartition] writes slot
    [2 * k] instead of slot [k] (or finds the table full). *)
Theorem read_twice_duplicates (NH NS offset size : Z) (s : BlockDevice) :
  ideal s -> m_entries s = [] ->
  readTwiceOutcome NH NS offset size s.
Proof.
  intros Hs Hnil. unfold readTwiceOutcome.
  set (table := onDisk (dev_data (m_fd s))).
  pose proof (onDisk_length (dev_data (m_fd s))) as Hk. fold table in Hk.
  pose proof (read_ideal s Hs) as R1.
  set (s1 := {| m_fd := _ |}) in R1.
  assert (Hs1 : ideal s1) by reflexivity.
  pose proof (read_ideal s1 Hs1) as R2.
  set (s2 := {| m_fd := _ |}) in R2.
  assert (Hs2 : ideal s2) by reflexivity.
  assert (E1 : m_entries s1 = table)
    by (cbn [s1 m_entries]; rewrite Hnil; reflexivity).
  assert (E2 : m_entries s2 = table ++ table)
    by (cbn [s2 m_entries m_fd dev_data]; rewrite E1; reflexivity).
  exists s1, s2.
  repeat (split; [first [exact R1 | exact R2 | exact E1 | exact E2
                        | reflexivity]|]).
  split; [rewrite E2, length_app; lia|].
  split; [reflexivity|]. split; [reflexivity|].
  unfold MAX_PARTITIONS.
  split; [|split].
  - intros Hlt.
    pose proof (addPartition_ideal NH NS offset size s1 Hs1) as A.
    rewrite E1 in A. specialize (A ltac:(lia)). cbv zeta in A.
    eexists. split; [exact A|].
    cbn [m_fd dev_data]. apply slot_store_same. reflexivity.
  - intros Hlt.
    pose proof (addPartition_ideal NH NS offset size s2 Hs2) as A.
    rewrite E2, length_app in A. specialize (A ltac:(lia)). cbv zeta in A.
    replace (Z.of_nat (length table + length table))
      with (2 * Z.of_nat (length table)) in A by lia.
    eexists. split; [exact A|].
    cbn [m_fd dev_data]. apply slot_store_same. reflexivity.
  - intros Hge. apply addPartition_full_table.
    rewrite E2, length_app. unfold MAX_PARTITIONS. lia.
Qed.

Lemma read_twice_duplicates_witness :
  readTwiceOutcome 255 63 (257 * MiB) (256 * MiB) (newBlockDevice onePartition).
Proof.
  apply (read_twice_duplicates 255 63 (257 * MiB) (256 * MiB)
           (newBlockDevice onePartition)); reflexivity.
Defined.

(** On that device the table has one entry; after two reads the list has
    two, and the partition appended next lands in slot 2, leaving slot 1
    empty. *)
Example read_twice_onePartition :
  let s := newBlockDevice onePartition in
  let r := (read ;; read ;; addPartition 255 63 (257 * MiB) (256 * MiB)) s in
  Z.of_nat (length (onDisk (dev_data (m_fd s)))) = 1
  /\ fst r = Done 3
  /\ isEmpty (slot (dev_data (m_fd (snd r))) 1) = true
  /\ slot (dev_data (m_fd (snd r))) 2 = buildEntry 255 63 (257 * MiB) (256 * MiB).
Proof. repeat split. Qed.

(** * Further properties *)

(** ** The lambdas [align] and [divCeil] *)

(** For a power-of-two alignment [align] rounds up to the next multiple:
    it is the ceiling of [number / alignment], times the alignment. *)
Theorem align_power_of_two (number k : Z) :
  0 <= k < 64 -> 0 <= number -> number + 2 ^ k - 1 < 2 ^ 64 ->
  align number (2 ^ k) = 2 ^ k * ((number + 2 ^ k - 1) / 2 ^ k).
Proof.
  intros Hk Hn Hx. unfold align.
  assert (0 < 2 ^ k) by (apply Z.pow_pos_nonneg; lia).
  assert (2 ^ k <= 2 ^ 63) by (apply Z.pow_le_mono_r; lia).
  rewrite (u64_small (number + 2 ^ k - 1)) by lia.
  rewrite (u64_small (2 ^ k - 1)) by lia.
  rewrite land_not64 by lia.
  replace (2 ^ k - 1) with (Z.ones k) by (rewrite Z.ones_equiv; lia).
  rewrite Z.ldiff_ones_r, Z.shiftl_mul_pow2, Z.shiftr_div_pow2 by lia.
  lia.
Qed.

Lemma align_power_of_two_witness :
  align 4033 (2 ^ 3) = 2 ^ 3 * ((4033 + 2 ^ 3 - 1) / 2 ^ 3).
Proof.
  apply (align_power_of_two 4033 3); vm_compute; repeat split;
    try discriminate; reflexivity.
Defined.

(** For any alignment [align] stays between the number and the number
    plus the alignment less one, power of two or not. *)
Theorem align_between (number alignment : Z) :
  0 <= number -> 1 <= alignment -> number + alignment - 1 < 2 ^ 64 ->
  number <= align number alignment <= number + alignment - 1.
Proof.
  intros Hn Ha Hx.
  destruct (align_bounds number alignment Hn Ha Hx) as [L U].
  split; assumption.
Qed.

Lemma align_between_witness :
  13643 <= align 13643 24 <= 13643 + 24 - 1.
Proof.
  apply (align_between 13643 24); vm_compute; try discriminate; reflexivity.
Defined.

(** [divCeil] is the quotient rounded up, as long as the [int]
    arithmetic does not overflow. *)
Theorem divCeil_rounds_up (a b : Z) :
  0 <= a -> 0 < b -> a + b < 2 ^ 31 ->
  divCeil a b = (a + b - 1) / b
  /\ b * (divCeil a b - 1) < a <= b * divCeil a b.
Proof.
  intros Ha Hb Hs. unfold divCeil.
  rewrite (i32_small a), (i32_small b) by lia.
  rewrite (i32_small (a + b - 1)) by lia.
  rewrite Z.quot_div_nonneg by lia.
  assert (Hq : 0 <= (a + b - 1) / b <= a + b - 1).
  { split; [apply Z.div_pos; lia|].
    apply Z.div_le_upper_bound; [lia|]. nia. }
  rewrite i32_small by lia.
  split; [reflexivity|].
  pose proof (Z.div_mod (a + b - 1) b ltac:(lia)) as D.
  pose proof (Z.mod_pos_bound (a + b - 1) b Hb) as M.
  nia.
Qed.

Lemma divCeil_rounds_up_witness :
  divCeil 7948 512 = (7948 + 512 - 1) / 512
  /\ 512 * (divCeil 7948 512 - 1) < 7948 <= 512 * divCeil 7948 512.
Proof.
  apply (divCeil_rounds_up 7948 512); vm_compute; try discriminate; reflexivity.
Defined.

(** ** The layout *)

(** Sectors per cluster as a function of the size, for sizes whose
    megabyte count fits an [int]. *)
Theorem sectorsPerCluster_by_size (size : Z) :
  0 <= size < 2 ^ 51 ->
  sectorsPerCluster size =
    if size <? 261 * MiB then 1
    else if size <? 8193 * MiB then 8
    else if size <? 16385 * MiB then 16
    else if size <? 32769 * MiB then 24
    else 32.
Proof.
  intros H. rewrite sectorsPerCluster_cases.
  assert (E : sizeMb size = size / 1048576).
  { unfold sizeMb. change (1024 * 1024) with 1048576. apply i32_small.
    assert (0 <= size / 1048576) by (apply Z.div_pos; lia).
    assert (size / 1048576 < 2 ^ 31) by (apply Z.div_lt_upper_bound; lia).
    lia. }
  rewrite E. unfold MiB. change (1024 * 1024) with 1048576.
  pose proof (Z.div_mod size 1048576 ltac:(lia)).
  pose proof (Z.mod_pos_bound size 1048576 ltac:(lia)).
  repeat match goal with
         | |- context [?a <=? ?b] => destruct (Z.leb_spec a b)
         | |- context [?a <? ?b] => destruct (Z.ltb_spec a b)
         end; try reflexivity; lia.
Qed.

Lemma sectorsPerCluster_by_size_witness :
  sectorsPerCluster (300 * MiB) =
    if 300 * MiB <? 261 * MiB then 1
    else if 300 * MiB <? 8193 * MiB then 8
    else if 300 * MiB <? 16385 * MiB then 16
    else if 300 * MiB <? 32769 * MiB then 24
    else 32.
Proof.
  apply (sectorsPerCluster_by_size (300 * MiB)); vm_compute;
    split; discriminate || reflexivity.
Defined.

(** For a partition of 1 MiB to 2 TiB nothing wraps around: the header
    ends at least two bytes before the partition does, the file fits
    behind it and is shorter than 4 GiB, and the zero fill stays inside
    the partition. *)
Theorem header_and_file_fit (size : Z) :
  MiB <= size < 2 ^ 41 ->
  (RESERVED_SECTORS + 2 * fatlength size + sectorsPerCluster size) * SECTOR_SIZE
    = headerSize size
  /\ headerSize size + maxFileSize size + 2 <= size
  /\ 0 <= maxFileSize size < 2 ^ 32
  /\ headerSize size + fileZeros size <= size.
Proof.
  intros H.
  destruct (layout_fits size H) as (F1 & F2 & F3 & F4).
  destruct (layout_facts size H)
    as (spc & cl & x & Es & Hs & Ecs & Ecl & Hcl0 & Hcl & Hx & Hfl & Efl & Eh).
  unfold RESERVED_SECTORS, SECTOR_SIZE. rewrite Eh, Es.
  repeat split; lia.
Qed.

Lemma header_and_file_fit_witness :
  (RESERVED_SECTORS + 2 * fatlength (256 * MiB) + sectorsPerCluster (256 * MiB))
    * SECTOR_SIZE = headerSize (256 * MiB)
  /\ headerSize (256 * MiB) + maxFileSize (256 * MiB) + 2 <= 256 * MiB
  /\ 0 <= maxFileSize (256 * MiB) < 2 ^ 32
  /\ headerSize (256 * MiB) + fileZeros (256 * MiB) <= 256 * MiB.
Proof.
  apply (header_and_file_fit (256 * MiB)). vm_compute.
  split; [discriminate|reflexivity].
Defined.

(** For a partition of 1 MiB to 2 TiB the FAT has an entry for each of
    the clusters counted on line 167 and for the two reserved entries,
    and is less than a sector plus a cluster longer than that needs. *)
Theorem fatlength_covers_clusters (size : Z) :
  MiB <= size < 2 ^ 41 ->
  (clusters size + 2) * 4 <= fatlength size * SECTOR_SIZE
  /\ fatlength size * SECTOR_SIZE
     < (clusters size + 2) * 4 + SECTOR_SIZE * sectorsPerCluster size
  /\ clusters size * (clusterSize size + 2 * 4) <= size.
Proof.
  intros H.
  destruct (layout_facts size H)
    as (spc & cl & x & Es & Hs & Ecs & Ecl & Hcl0 & Hcl & Hx & Hfl & Efl & Eh).
  unfold SECTOR_SIZE. rewrite Ecl, Es, Ecs.
  split; [lia|]. split; [nia|].
  pose proof (Z.div_mod size 512 ltac:(lia)) as D.
  pose proof (Z.mod_pos_bound size 512 ltac:(lia)) as M.
  assert (C : cl * (512 * spc + 8) <= (size / 512 - 32) * 512 + 16).
  { rewrite <- Ecl. unfold clusters, fatdata, numSectors, SECTOR_SIZE,
      RESERVED_SECTORS, NR_FATS. rewrite Ecs.
    unfold MiB in H.
    rewrite (u64_small (size / 512 - 32)) by lia.
    rewrite (u64_small ((size / 512 - 32) * 512 + 2 * 8)) by lia.
    rewrite (u64_small (512 * spc + 2 * 4)) by lia.
    rewrite Z.mul_comm. apply Z.mul_div_le. lia. }
  lia.
Qed.

Lemma fatlength_covers_clusters_witness :
  (clusters (256 * MiB) + 2) * 4 <= fatlength (256 * MiB) * SECTOR_SIZE
  /\ fatlength (256 * MiB) * SECTOR_SIZE
     < (clusters (256 * MiB) + 2) * 4
       + SECTOR_SIZE * sectorsPerCluster (256 * MiB)
  /\ clusters (256 * MiB) * (clusterSize (256 * MiB) + 2 * 4) <= 256 * MiB.
Proof.
  apply (fatlength_covers_clusters (256 * MiB)). vm_compute.
  split; [discriminate|reflexivity].
Defined.

Lemma fatlength_multiple_witness :
  fatlength (300 * MiB) mod sectorsPerCluster (300 * MiB) = 0.
Proof.
  apply (fatlength_multiple (300 * MiB)); vm_compute;
    [split; [discriminate|reflexivity] | discriminate].
Defined.

(** ** Bytes of a number *)

Lemma byte_of_wrapped (x c k : Z) :
  0 <= k <= 24 ->
  ((x + c * 2 ^ 32) / 2 ^ k) mod 256 = (x / 2 ^ k) mod 256.
Proof.
  intros Hk.
  replace (c * 2 ^ 32) with (c * 2 ^ (24 - k) * 256 * 2 ^ k).
  2:{ change 256 with (2 ^ 8).
      rewrite <- !Z.mul_assoc, <- !Z.pow_add_r by lia.
      do 2 f_equal. lia. }
  rewrite Z.div_add by (apply Z.pow_nonzero; lia).
  apply Z.mod_add. lia.
Qed.

Lemma i32_wrapped (x : Z) : exists c, i32 x = x + c * 2 ^ 32.
Proof.
  exists (- ((x + 2 ^ 31) / 2 ^ 32)). unfold i32.
  rewrite Z.mod_eq by lia. lia.
Qed.

Lemma u32_wrapped (x : Z) : exists c, u32 x = x + c * 2 ^ 32.
Proof.
  exists (- (x / 2 ^ 32)). unfold u32.
  rewrite Z.mod_eq by lia. lia.
Qed.

Lemma getbyte_div (x i : Z) :
  0 <= i <= 3 -> getbyte x i = (x / 2 ^ (8 * i)) mod 256.
Proof.
  intros Hi. unfold getbyte.
  rewrite u8_land, <- Z.land_assoc. change (Z.land 255 255) with (Z.ones 8).
  rewrite Z.land_ones, Z.shiftr_div_pow2 by lia.
  destruct (i32_wrapped x) as [c ->].
  apply byte_of_wrapped. lia.
Qed.

(** The four bytes that the lambdas [t], [f], [u], [fc], [nc] and [s] of
    [formatOverlayPartition] produce are the little-endian form of the
    low 32 bits of the number. *)
Lemma getbyte_le32 (x : Z) :
  [getbyte x 0; getbyte x 1; getbyte x 2; getbyte x 3] = le32 (u32 x).
Proof.
  assert (H : forall k, 0 <= k <= 24 ->
                (u32 x / 2 ^ k) mod 256 = (x / 2 ^ k) mod 256).
  { intros k Hk. destruct (u32_wrapped x) as [c ->].
    apply byte_of_wrapped. exact Hk. }
  pose proof (H 0 ltac:(lia)) as H0. pose proof (H 8 ltac:(lia)) as H8.
  pose proof (H 16 ltac:(lia)) as H16. pose proof (H 24 ltac:(lia)) as H24.
  clear H.
  unfold le32, u8. rewrite !getbyte_div by lia.
  rewrite !Z.shiftr_div_pow2 by lia.
  change (8 * 0) with 0. change (8 * 1) with 8. change (8 * 2) with 16.
  change (8 * 3) with 24.
  change (2 ^ 0) with 1 in *. rewrite !Z.div_1_r in *.
  change (2 ^ 8) with 256 in *.
  rewrite H0, H8, H16, H24.
  reflexivity.
Qed.

Lemma getbyte_decode (x : Z) :
  le32_decode [getbyte x 0; getbyte x 1; getbyte x 2; getbyte x 3] = u32 x.
Proof.
  rewrite getbyte_le32. apply le32_roundtrip.
  unfold u32. apply Z.mod_pos_bound. lia.
Qed.

(** ** Fields of the boot sector, the FSInfo sector and the directory *)

(** The variable fields of the boot sector read back as the values of the
    layout, and its fixed fields agree with the constants of the layout:
    512 bytes per sector, 32 reserved sectors, 2 FATs, FSInfo in sector 1
    and the backup boot sector in sector 6. *)
Theorem bootSector_fields (size : Z) (c : Clock) :
  let b := bootSector size c in
  nth 13 b 0 = u8 (sectorsPerCluster size)
  /\ le32_decode (firstn 4 (skipn 32 b)) = u32 (numSectors size)
  /\ le32_decode (firstn 4 (skipn 36 b)) = u32 (fatlength size)
  /\ le32_decode (firstn 4 (skipn 67 b)) = volumeId c
  /\ nth 11 b 0 + 256 * nth 12 b 0 = SECTOR_SIZE
  /\ nth 14 b 0 + 256 * nth 15 b 0 = RESERVED_SECTORS
  /\ nth 16 b 0 = NR_FATS
  /\ nth 48 b 0 + 256 * nth 49 b 0 = 1
  /\ nth 50 b 0 + 256 * nth 51 b 0 = 6.
Proof.
  cbv zeta. unfold bootSector. cbn [nth skipn firstn].
  rewrite !getbyte_decode.
  repeat split; try reflexivity.
  unfold volumeId, u32. apply Z.mod_mod. lia.
Qed.

(** The FSInfo record and the directory entry of the file read back as
    the values of the layout: free clusters, next free cluster, first
    cluster 3 and the file size, each in its low 32 bits. *)
Theorem fsinfo_fileEntry_fields (size : Z) (c : Clock) :
  le32_decode (firstn 4 (skipn 4 (fsinfo size))) = u32 (numFreeClusters size)
  /\ le32_decode (firstn 4 (skipn 8 (fsinfo size))) = u32 (nextFreeCluster size)
  /\ nth 26 (fileEntry size c) 0 + 256 * nth 27 (fileEntry size c) 0
     = FIRST_CLUSTER
  /\ le32_decode (firstn 4 (skipn 28 (fileEntry size c))) = u32 (maxFileSize size)
  /\ nth 11 (rootDir c) 0 = 0x08.
Proof.
  unfold fsinfo, fileEntry. cbn [nth skipn firstn].
  rewrite !getbyte_decode. repeat split; reflexivity.
Qed.

(** ** The file size *)

(** For a partition of 1 MiB to 2 TiB the file size is the room left
    after the header, capped at [2^32 - 1], less two bytes and rounded
    down to a whole number of sectors. *)
Theorem maxFileSize_rounded (size : Z) :
  MiB <= size < 2 ^ 41 ->
  maxFileSize size
  = SECTOR_SIZE
    * ((Z.min (size - headerSize size) 0xffffffff - 2) / SECTOR_SIZE).
Proof.
  intros H. destruct (layout_fits size H) as (F1 & F2 & F3 & F4).
  destruct (layout_facts size H)
    as (spc & cl & x & Es & Hs & Ecs & Ecl & Hcl0 & Hcl & Hx & Hfl & Efl & Eh).
  unfold MiB in H. unfold maxFileSize, SECTOR_SIZE.
  rewrite (u64_small (size - headerSize size)) by lia.
  set (m := Z.min (size - headerSize size) 0xffffffff).
  assert (2 <= m <= 0xffffffff) by (subst m; lia).
  unfold align.
  replace (u64 (m - 512 - 1) + 512 - 1) with (u64 (m - 512 - 1) + 511) by lia.
  rewrite u64_add_l.
  replace (m - 512 - 1 + 511) with (m - 2) by lia.
  rewrite (u64_small (m - 2)) by lia.
  rewrite (u64_small (512 - 1)) by lia.
  rewrite land_not64 by lia.
  change (512 - 1) with (Z.ones 9).
  rewrite Z.ldiff_ones_r, Z.shiftl_mul_pow2, Z.shiftr_div_pow2 by lia.
  change (2 ^ 9) with 512. lia.
Qed.

Lemma maxFileSize_rounded_witness :
  maxFileSize (256 * MiB)
  = SECTOR_SIZE
    * ((Z.min (256 * MiB - headerSize (256 * MiB)) 0xffffffff - 2) / SECTOR_SIZE).
Proof.
  apply (maxFileSize_rounded (256 * MiB)). vm_compute.
  split; [discriminate|reflexivity].
Defined.

(** ** CHS round trip *)

Lemma chsBytesDecode_all (cylinder sector : Z) :
  0 <= cylinder < 1024 -> 1 <= sector <= 63 ->
  chsBytesDecode cylinder sector = true.
Proof.
  intros Hc Hs.
  assert (All : forallb (fun c => forallb (chsBytesDecode c) (zrange 1 63))
                        (zrange 0 1024) = true)
    by (vm_compute; reflexivity).
  pose proof (forallb_zrange _ _ _ All cylinder ltac:(simpl; lia)) as A1.
  exact (forallb_zrange _ _ _ A1 sector ltac:(simpl; lia)).
Qed.

(** Within the representable range (cylinder below 1024) and for a
    geometry of at most 256 heads and 63 sectors per track, the three
    bytes of [fillChs] determine the number they were computed from. *)
Theorem chsDecode_fillChs (NH NS position : Z) :
  1 <= NS <= 63 -> 1 <= NH <= 256 ->
  0 <= position -> position / (NH * NS) < 1024 ->
  chsDecode NH NS (fillChs NH NS position) = position.
Proof.
  intros HS HH Hp Hc.
  rewrite fillChs_spec by lia.
  unfold chsDecode, spec_chs. cbn [nth].
  set (cyl := position / (NH * NS)) in *.
  set (sec := position mod NS + 1).
  assert (Hsec : 1 <= sec <= 63)
    by (subst sec; pose proof (Z.mod_pos_bound position NS); lia).
  assert (Hcyl : 0 <= cyl) by (subst cyl; apply Z.div_pos; nia).
  pose proof (chsBytesDecode_all cyl sec ltac:(lia) Hsec) as D.
  unfold chsBytesDecode in D. apply andb_prop in D. destruct D as [D1 D2].
  apply Z.eqb_eq in D1, D2. rewrite D1, D2.
  subst cyl sec.
  pose proof (Z.div_mod position NS ltac:(lia)) as E1.
  pose proof (Z.div_mod (position / NS) NH ltac:(lia)) as E2.
  rewrite Z.div_div in E2 by lia.
  rewrite (Z.mul_comm NS NH) in E2.
  set (q := position / NS) in *.
  set (c := position / (NH * NS)) in *.
  replace (c * NH + q mod NH) with q by lia.
  lia.
Qed.

Lemma chsDecode_fillChs_witness :
  chsDecode 255 63 (fillChs 255 63 2048) = 2048.
Proof.
  apply (chsDecode_fillChs 255 63 2048); vm_compute;
    repeat split; try discriminate; reflexivity.
Defined.

(** ** The cluster chain *)

(** For a partition of 1 MiB to 2 TiB the first cluster after the file
    is [maxFileSize / clusterSize + 4], at most [2^23 + 4]. *)
Lemma nextFreeCluster_bounds (size : Z) :
  MiB <= size < 2 ^ 41 ->
  nextFreeCluster size = maxFileSize size / clusterSize size + 4
  /\ 4 <= nextFreeCluster size <= 2 ^ 32.
Proof.
  intros H.
  destruct (layout_facts size H)
    as (spc & cl & x & Es & Hs & Ecs & Ecl & Hcl0 & Hcl & Hx & Hfl & Efl & Eh).
  destruct (layout_fits size H) as (F1 & F2 & F3 & F4).
  assert (Hq : 0 <= maxFileSize size / (512 * spc)
               /\ 512 * (maxFileSize size / (512 * spc)) <= maxFileSize size).
  { split; [apply Z.div_pos; lia|].
    pose proof (Z.mul_div_le (maxFileSize size) (512 * spc) ltac:(lia)).
    nia. }
  unfold nextFreeCluster, FIRST_CLUSTER. rewrite Ecs.
  rewrite (u64_small (512 * spc)) by lia.
  rewrite u64_small by lia. lia.
Qed.

(** For a partition of 1 MiB to 2 TiB the clusters of the chain, from
    cluster 3 to the last one before [nextFreeCluster], hold the whole
    file and less than one cluster more. *)
Theorem chain_covers_file (size : Z) :
  MiB <= size < 2 ^ 41 ->
  maxFileSize size
  < (nextFreeCluster size - FIRST_CLUSTER) * clusterSize size
  <= maxFileSize size + clusterSize size.
Proof.
  intros H. destruct (nextFreeCluster_bounds size H) as [E _].
  destruct (layout_facts size H)
    as (spc & cl & x & Es & Hs & Ecs & Ecl & Hcl0 & Hcl & Hx & Hfl & Efl & Eh).
  rewrite E, Ecs. unfold FIRST_CLUSTER.
  pose proof (Z.div_mod (maxFileSize size) (512 * spc) ltac:(lia)) as D.
  pose proof (Z.mod_pos_bound (maxFileSize size) (512 * spc) ltac:(lia)) as M.
  nia.
Qed.

Lemma chain_covers_file_witness :
  maxFileSize (256 * MiB)
  < (nextFreeCluster (256 * MiB) - FIRST_CLUSTER) * clusterSize (256 * MiB)
  <= maxFileSize (256 * MiB) + clusterSize (256 * MiB).
Proof.
  apply (chain_covers_file (256 * MiB)). vm_compute.
  split; [discriminate|reflexivity].
Defined.










(** ** Reading, whatever the device does *)

Lemma quiet_read_loop (n : nat) : quiet n (read_loop n).
Proof.
  induction n as [|n IH]; intros s r s' E.
  - cbn [read_loop ret] in E. injection E as <- <-.
    repeat (split; [reflexivity|]). split; [|left; reflexivity].
    exists []. rewrite app_nil_r. repeat split; auto.
  - cbn [read_loop] in E. unfold bind at 1 in E.
    unfold syscall, sys_read in E.
    set (len := transfer (dev_script (m_fd s)) PARTITION_ENTRY_SIZE) in E.
    destruct (len <? 0) eqn:Hneg.
    + assert (Hne : (len =? PARTITION_ENTRY_SIZE) = false).
      { apply Z.eqb_neq. apply Z.ltb_lt in Hneg.
        unfold PARTITION_ENTRY_SIZE. lia. }
      cbn [fst snd] in E. rewrite Hne in E. cbn [negb throw] in E.
      injection E as <- <-. cbn [m_fd dev_data dev_trace
        m_bytesWritten m_totalBytes progress m_entries].
      repeat (split; [reflexivity|]). split; [|right; reflexivity].
      exists []. rewrite app_nil_r. repeat split; auto. simpl. lia.
    + cbn [fst snd] in E.
      destruct (len =? PARTITION_ENTRY_SIZE) eqn:Hlen; cbn [negb] in E.
      * set (entry := load _ _ _) in E.
        destruct (forallb (fun c => c =? 0) entry) eqn:Hempty.
        -- destruct (IH _ _ _ E) as (D & T & B & Tot & P & (more & E' & L & F) & O).
           cbn [m_fd dev_data dev_trace m_bytesWritten m_totalBytes progress
                m_entries] in D, T, B, Tot, P, E'.
           repeat (split; [assumption|]). split; [|exact O].
           exists more. repeat split; auto.
        -- unfold bind, appendEntry in E.
           destruct (IH _ _ _ E) as (D & T & B & Tot & P & (more & E' & L & F) & O).
           cbn [m_fd dev_data dev_trace m_bytesWritten m_totalBytes progress
                m_entries] in D, T, B, Tot, P, E'.
           repeat (split; [assumption|]). split; [|exact O].
           exists (entry :: more). split; [|split].
           ++ rewrite E', <- app_assoc. reflexivity.
           ++ simpl. lia.
           ++ constructor; [exact Hempty|exact F].
      * cbn [throw] in E. injection E as <- <-.
        cbn [m_fd dev_data dev_trace m_bytesWritten m_totalBytes progress
             m_entries].
        repeat (split; [reflexivity|]). split; [|right; reflexivity].
        exists []. rewrite app_nil_r. repeat split; auto. simpl. lia.
Qed.

(** Whatever the device returns to the seek and to the reads,
    [read] writes nothing: contents, write trace, counters and progress
    sink are as before; it only appends non-empty entries, at most four,
    and none when the seek fails; it ends normally, with a seek failure or
    with a read failure. *)
Theorem read_never_writes (s s' : BlockDevice) (r : Outcome unit) :
  read s = (r, s') ->
  dev_data (m_fd s') = dev_data (m_fd s)
  /\ dev_trace (m_fd s') = dev_trace (m_fd s)
  /\ m_bytesWritten s' = m_bytesWritten s
  /\ m_totalBytes s' = m_totalBytes s
  /\ progress s' = progress s
  /\ (exists more,
        m_entries s' = m_entries s ++ more
        /\ (length more <= 4)%nat
        /\ Forall (fun e => isEmpty e = false) more)
  /\ (r = Done tt \/ r = Thrown SeekFailure \/ r = Thrown ReadFailure)
  /\ (r = Thrown SeekFailure -> m_entries s' = m_entries s).
Proof.
  intros E. unfold read, seekEntry in E. unfold bind at 1 2 in E.
  unfold syscall, sys_lseek in E.
  change (i64 (u64 (PARTITION_ENTRY_OFFSET + PARTITION_ENTRY_SIZE * 0)))
    with PARTITION_ENTRY_OFFSET in E.
  change (PARTITION_ENTRY_OFFSET <? 0) with false in E. cbv iota beta in E.
  destruct (seekRefused (dev_script (m_fd s))).
  - change (-1 <? 0) with true in E. cbv iota beta in E. unfold throw in E.
    injection E as <- <-.
    cbn [m_fd dev_data dev_trace m_bytesWritten m_totalBytes progress
         m_entries].
    repeat (split; [reflexivity|]).
    split; [|split; [right; left; reflexivity|reflexivity]].
    exists []. rewrite app_nil_r. repeat split; auto.
  - change (PARTITION_ENTRY_OFFSET <? 0) with false in E. cbv iota beta in E.
    unfold ret in E.
    destruct (quiet_read_loop 4 _ _ _ E)
      as (D & T & B & Tot & P & Mo & O).
    cbn [m_fd dev_data dev_trace m_bytesWritten m_totalBytes progress
         m_entries] in D, T, B, Tot, P, Mo.
    repeat (split; [assumption|]).
    split; [destruct O as [->| ->]; auto|].
    intros ->. destruct O; discriminate.
Qed.

Lemma read_never_writes_witness :
  dev_data (m_fd (snd (read shortSecondRead))) = dev_data (m_fd shortSecondRead)
  /\ dev_trace (m_fd (snd (read shortSecondRead))) = dev_trace (m_fd shortSecondRead)
  /\ m_bytesWritten (snd (read shortSecondRead)) = m_bytesWritten shortSecondRead
  /\ m_totalBytes (snd (read shortSecondRead)) = m_totalBytes shortSecondRead
  /\ progress (snd (read shortSecondRead)) = progress shortSecondRead
  /\ (exists more,
        m_entries (snd (read shortSecondRead)) = m_entries shortSecondRead ++ more
        /\ (length more <= 4)%nat
        /\ Forall (fun e => isEmpty e = false) more)
  /\ (fst (read shortSecondRead) = Done tt
      \/ fst (read shortSecondRead) = Thrown SeekFailure
      \/ fst (read shortSecondRead) = Thrown ReadFailure)
  /\ (fst (read shortSecondRead) = Thrown SeekFailure ->
      m_entries (snd (read shortSecondRead)) = m_entries shortSecondRead).
Proof.
  apply (read_never_writes shortSecondRead (snd (read shortSecondRead))
           (fst (read shortSecondRead))).
  destruct (read shortSecondRead); reflexivity.
Defined.

(** ** A read that comes back short *)

Lemma read_loop_short (k : nat) :
  forall n s c rest,
    (k < n)%nat -> c < PARTITION_ENTRY_SIZE ->
    dev_script (m_fd s) = repeat PARTITION_ENTRY_SIZE k ++ c :: rest ->
    exists s',
      read_loop n s = (Thrown ReadFailure, s')
      /\ m_entries s'
         = m_entries s ++ slotsFrom (dev_data (m_fd s)) (dev_pos (m_fd s)) k
      /\ dev_script (m_fd s') = rest.
Proof.
  unfold PARTITION_ENTRY_SIZE.
  induction k as [|k IH]; intros n s c rest Hk Hc Hscript;
    (destruct n as [|n]; [lia|]).
  - cbn [repeat app] in Hscript.
    cbn [read_loop]. unfold bind at 1, syscall, sys_read, transfer.
    rewrite Hscript. cbn [tl].
    destruct (c <? 0) eqn:Hneg.
    + change (-1 <? 0) with true. cbv iota. cbn [fst snd].
      change (-1 =? PARTITION_ENTRY_SIZE) with false. cbn [negb throw].
      eexists. split; [reflexivity|]. cbn [m_entries m_fd dev_script].
      unfold slotsFrom. cbn [seq map filter]. rewrite app_nil_r. auto.
    + apply Z.ltb_ge in Hneg.
      assert (Hmin : Z.min c PARTITION_ENTRY_SIZE = c)
        by (unfold PARTITION_ENTRY_SIZE; lia).
      rewrite Hmin.
      destruct (Z.ltb_spec c 0) as [|_]; [lia|]. cbn [fst snd].
      assert (Hne : (c =? PARTITION_ENTRY_SIZE) = false)
        by (apply Z.eqb_neq; unfold PARTITION_ENTRY_SIZE; lia).
      rewrite Hne. cbn [negb throw].
      eexists. split; [reflexivity|]. cbn [m_entries m_fd dev_script].
      unfold slotsFrom. cbn [seq map filter]. rewrite app_nil_r. auto.
  - cbn [repeat app] in Hscript.
    cbn [read_loop]. unfold bind at 1, syscall, sys_read, transfer.
    rewrite Hscript. cbn [tl].
    change (16 <? 0) with false. cbv iota.
    change (Z.min 16 PARTITION_ENTRY_SIZE) with PARTITION_ENTRY_SIZE.
    change (PARTITION_ENTRY_SIZE <? 0) with false. cbv iota. cbn [fst snd].
    rewrite Z.eqb_refl. cbn [negb].
    rewrite slotsFrom_S.
    set (entry := load _ _ _).
    destruct (forallb (fun c0 => c0 =? 0) entry) eqn:Hempty.
    + match goal with
      | |- context [read_loop n ?s1] =>
          destruct (IH n s1 c rest ltac:(lia) Hc eq_refl) as (s' & E & En & Es)
      end.
      exists s'. split; [exact E|]. split; [|exact Es].
      rewrite En. cbn [m_entries m_fd dev_data dev_pos].
      unfold isEmpty. fold entry. rewrite Hempty. reflexivity.
    + unfold bind, appendEntry.
      match goal with
      | |- context [read_loop n ?s1] =>
          destruct (IH n s1 c rest ltac:(lia) Hc eq_refl) as (s' & E & En & Es)
      end.
      exists s'. split; [exact E|]. split; [|exact Es].
      rewrite En. cbn [m_entries m_fd dev_data dev_pos].
      unfold isEmpty. fold entry. rewrite Hempty, <- app_assoc. reflexivity.
Qed.

(** A script that begins with a byte count of a slot or less does not
    refuse the seek. *)
Lemma seek_before_reads (k : nat) (c : Z) (rest : list Z) :
  c < PARTITION_ENTRY_SIZE ->
  seekRefused (repeat PARTITION_ENTRY_SIZE k ++ c :: rest) = false.
Proof.
  unfold PARTITION_ENTRY_SIZE. intros Hc.
  destruct k as [|k]; cbn [repeat app seekRefused]; apply Z.eqb_neq;
    unfold SEEK_REFUSED; lia.
Qed.

(** When the read of slot [k] comes back short or fails, after [k] full
    reads, [read] throws a read failure, and the non-empty ones among the
    [k] slots read before stay appended to the entry list. *)
Theorem read_short_read (k : nat) (s : BlockDevice) (c : Z) (rest : list Z) :
  (k < 4)%nat -> c < PARTITION_ENTRY_SIZE ->
  dev_script (m_fd s) = repeat PARTITION_ENTRY_SIZE k ++ c :: rest ->
  exists s',
    read s = (Thrown ReadFailure, s')
    /\ m_entries s'
       = m_entries s
         ++ slotsFrom (dev_data (m_fd s)) PARTITION_ENTRY_OFFSET k.
Proof.
  intros Hk Hc Hscript. unfold read, seekEntry. unfold bind at 1 2.
  unfold syscall.
  rewrite sys_lseek_performed
    by first [rewrite Hscript; apply seek_before_reads; exact Hc
             | vm_compute; discriminate].
  change (i64 (u64 (PARTITION_ENTRY_OFFSET + PARTITION_ENTRY_SIZE * 0)))
    with PARTITION_ENTRY_OFFSET.
  change (PARTITION_ENTRY_OFFSET <? 0) with false. cbv iota beta.
  unfold ret.
  match goal with
  | |- context [read_loop _ ?s1] =>
      destruct (read_loop_short k (Z.to_nat MAX_PARTITIONS) s1 c rest)
        as (s' & E & En & _)
  end; [exact Hk|exact Hc|exact Hscript|].
  exists s'. split; [exact E|exact En].
Qed.

Lemma read_short_read_witness :
  exists s',
    read shortSecondRead = (Thrown ReadFailure, s')
    /\ m_entries s'
       = m_entries shortSecondRead
         ++ slotsFrom (dev_data (m_fd shortSecondRead)) PARTITION_ENTRY_OFFSET 1.
Proof.
  apply (read_short_read 1 shortSecondRead 7 []).
  - repeat constructor.
  - reflexivity.
  - reflexivity.
Defined.

(** ** Appending *)

(** On a device that transfers everything, [addPartition] on a table of
    [n < 4] entries makes one write of 16 bytes: slot [n] holds the new
    entry, every other slot is as before, the entry is appended to the
    list and [n + 1] is returned. *)
Theorem addPartition_writes_one_slot (NH NS offset size : Z) (s : BlockDevice) :
  ideal s -> (length (m_entries s) < 4)%nat ->
  let n := Z.of_nat (length (m_entries s)) in
  let entry := buildEntry NH NS offset size in
  exists s',
    addPartition NH NS offset size s = (Done (n + 1), s')
    /\ m_entries s' = m_entries s ++ [entry]
    /\ dev_trace (m_fd s') = entry :: dev_trace (m_fd s)
    /\ slot (dev_data (m_fd s')) n = entry
    /\ (forall i, 0 <= i -> i <> n ->
          slot (dev_data (m_fd s')) i = slot (dev_data (m_fd s)) i).
Proof.
  intros Hs Hlen n entry.
  pose proof (addPartition_ideal NH NS offset size s Hs Hlen) as A.
  cbv zeta in A. fold n entry in A.
  eexists. split; [exact A|].
  cbn [m_entries m_fd dev_trace dev_data].
  split; [reflexivity|]. split; [reflexivity|]. split.
  - apply slot_store_same. reflexivity.
  - intros i Hi Hne. apply slot_store_other; try assumption.
    + reflexivity.
    + subst n. lia.
Qed.

Lemma addPartition_writes_one_slot_witness :
  let s := newBlockDevice onePartition in
  let n := Z.of_nat (length (m_entries s)) in
  let entry := buildEntry 255 63 (257 * MiB) MiB in
  exists s',
    addPartition 255 63 (257 * MiB) MiB s = (Done (n + 1), s')
    /\ m_entries s' = m_entries s ++ [entry]
    /\ dev_trace (m_fd s') = entry :: dev_trace (m_fd s)
    /\ slot (dev_data (m_fd s')) n = entry
    /\ (forall i, 0 <= i -> i <> n ->
          slot (dev_data (m_fd s')) i = slot (dev_data (m_fd s)) i).
Proof.
  apply (addPartition_writes_one_slot 255 63 (257 * MiB) MiB
           (newBlockDevice onePartition)).
  - reflexivity.
  - simpl. lia.
Defined.

(** When the write of the new slot comes back short or fails,
    [addPartition] throws a write failure, but the entry has already been
    appended to the entry list: the list and the disk no longer agree. *)
Theorem addPartition_write_failure (NH NS offset size : Z) (s : BlockDevice)
        (c : Z) (rest : list Z) :
  (length (m_entries s) < 4)%nat ->
  c < PARTITION_ENTRY_SIZE ->
  dev_script (m_fd s) = c :: rest ->
  exists s',
    addPartition NH NS offset size s = (Thrown WriteFailure, s')
    /\ m_entries s' = m_entries s ++ [buildEntry NH NS offset size]
    /\ (c < 0 -> dev_data (m_fd s') = dev_data (m_fd s)).
Proof.
  unfold PARTITION_ENTRY_SIZE. intros Hlen Hc Hscript.
  set (n := Z.of_nat (length (m_entries s))).
  set (entry := buildEntry NH NS offset size).
  assert (Hn : n = 0 \/ n = 1 \/ n = 2 \/ n = 3) by (subst n; lia).
  unfold addPartition. fold entry.
  unfold bind at 1. unfold entriesSize. fold n.
  assert (Hnum : i32 (n + 1) = n + 1) by (apply i32_small; lia).
  rewrite Hnum.
  destruct (Z.gtb_spec (n + 1) MAX_PARTITIONS) as [Hgt|_];
    [unfold MAX_PARTITIONS in Hgt; lia|].
  unfold bind at 1. unfold appendEntry.
  unfold bind at 1. unfold seekEntry.
  unfold bind at 1. unfold syscall at 1. unfold sys_lseek.
  cbn [m_fd].
  replace (n + 1 - 1) with n by lia.
  set (at_ := PARTITION_ENTRY_OFFSET + PARTITION_ENTRY_SIZE * n).
  assert (Hat : i64 (u64 at_) = at_).
  { subst at_. destruct Hn as [->|[->|[->| ->]]]; reflexivity. }
  rewrite Hat.
  assert (Hpos : (at_ <? 0) = false).
  { subst at_. destruct Hn as [->|[->|[->| ->]]]; reflexivity. }
  assert (Hq : seekRefused (dev_script (m_fd s)) = false)
    by (rewrite Hscript; apply (seek_before_reads 0); exact Hc).
  rewrite Hpos. cbv iota beta. rewrite Hq. cbv iota beta.
  rewrite Hpos. cbv iota beta.
  unfold ret. unfold bind, syscall. cbn [m_fd].
  unfold sys_write, transfer. cbn [dev_script]. rewrite Hscript.
  change (Z.of_nat (length entry)) with 16. change (extent entry) with 16.
  destruct (Z.ltb_spec c 0) as [Hneg|Hnn].
  - change (-1 <? 0) with true. cbv iota.
    change (-1 =? 16) with false. cbn [negb throw].
    eexists. split; [reflexivity|]. cbn [m_entries m_fd dev_data]. auto.
  - rewrite Z.min_l by lia.
    destruct (Z.ltb_spec c 0) as [|_]; [lia|].
    assert (Hne : (c =? 16) = false) by (apply Z.eqb_neq; lia).
    rewrite Hne. cbn [negb throw].
    eexists. split; [reflexivity|]. cbn [m_entries]. split; [reflexivity|lia].
Qed.

Lemma addPartition_write_failure_witness :
  exists s',
    addPartition 255 63 MiB MiB (newBlockDevice (blankDevice [10]))
      = (Thrown WriteFailure, s')
    /\ m_entries s'
       = m_entries (newBlockDevice (blankDevice [10]))
         ++ [buildEntry 255 63 MiB MiB]
    /\ (10 < 0 -> dev_data (m_fd s')
                  = dev_data (m_fd (newBlockDevice (blankDevice [10])))).
Proof.
  apply (addPartition_write_failure 255 63 MiB MiB
           (newBlockDevice (blankDevice [10])) 10 []).
  - simpl. lia.
  - reflexivity.
  - reflexivity.
Defined.

(** When the device refuses the seek to the slot, [addPartition] throws a
    seek failure and writes nothing, but the entry has already been
    appended to the entry list. *)
Theorem addPartition_seek_failure (NH NS offset size : Z) (s : BlockDevice)
        (rest : list Z) :
  (length (m_entries s) < 4)%nat ->
  dev_script (m_fd s) = SEEK_REFUSED :: rest ->
  exists s',
    addPartition NH NS offset size s = (Thrown SeekFailure, s')
    /\ m_entries s' = m_entries s ++ [buildEntry NH NS offset size]
    /\ dev_data (m_fd s') = dev_data (m_fd s)
    /\ dev_trace (m_fd s') = dev_trace (m_fd s)
    /\ dev_pos (m_fd s') = dev_pos (m_fd s).
Proof.
  intros Hlen Hscript.
  set (n := Z.of_nat (length (m_entries s))).
  set (entry := buildEntry NH NS offset size).
  assert (Hn : n = 0 \/ n = 1 \/ n = 2 \/ n = 3) by (subst n; lia).
  unfold addPartition. fold entry.
  unfold bind at 1. unfold entriesSize. fold n.
  assert (Hnum : i32 (n + 1) = n + 1) by (apply i32_small; lia).
  rewrite Hnum.
  destruct (Z.gtb_spec (n + 1) MAX_PARTITIONS) as [Hgt|_];
    [unfold MAX_PARTITIONS in Hgt; lia|].
  unfold bind at 1. unfold appendEntry.
  unfold bind at 1. unfold seekEntry.
  unfold bind at 1. unfold syscall at 1. unfold sys_lseek.
  cbn [m_fd].
  replace (n + 1 - 1) with n by lia.
  set (at_ := PARTITION_ENTRY_OFFSET + PARTITION_ENTRY_SIZE * n).
  assert (Hat : i64 (u64 at_) = at_).
  { subst at_. destruct Hn as [->|[->|[->| ->]]]; reflexivity. }
  rewrite Hat.
  assert (Hpos : (at_ <? 0) = false).
  { subst at_. destruct Hn as [->|[->|[->| ->]]]; reflexivity. }
  rewrite Hpos. cbv iota beta.
  rewrite Hscript. cbn [seekRefused tl]. rewrite Z.eqb_refl. cbv iota beta.
  change (-1 <? 0) with true. cbv iota beta. unfold throw.
  eexists. split; [reflexivity|].
  cbn [m_entries m_fd dev_data dev_trace dev_pos]. auto.
Qed.

Lemma addPartition_seek_failure_witness :
  exists s',
    addPartition 255 63 MiB MiB (newBlockDevice (blankDevice [SEEK_REFUSED]))
      = (Thrown SeekFailure, s')
    /\ m_entries s'
       = m_entries (newBlockDevice (blankDevice [SEEK_REFUSED]))
         ++ [buildEntry 255 63 MiB MiB]
    /\ dev_data (m_fd s')
       = dev_data (m_fd (newBlockDevice (blankDevice [SEEK_REFUSED])))
    /\ dev_trace (m_fd s')
       = dev_trace (m_fd (newBlockDevice (blankDevice [SEEK_REFUSED])))
    /\ dev_pos (m_fd s')
       = dev_pos (m_fd (newBlockDevice (blankDevice [SEEK_REFUSED]))).
Proof.
  apply (addPartition_seek_failure 255 63 MiB MiB
           (newBlockDevice (blankDevice [SEEK_REFUSED])) []).
  - simpl. lia.
  - reflexivity.
Defined.

(** ** The formatter *)

(** An offset that does not fit [off_t] makes the formatter throw a seek
    failure before anything else happens: nothing is written and the
    counters are not reset. *)
Theorem format_seek_failure (offset size : Z) (c : Clock) (s : BlockDevice) :
  i64 offset < 0 ->
  formatOverlayPartition offset size c s = (Thrown SeekFailure, s).
Proof.
  intros H. unfold formatOverlayPartition, seekto.
  unfold bind at 1 2. unfold syscall, sys_lseek.
  destruct (Z.ltb_spec (i64 offset) 0) as [_|]; [|lia].
  change (-1 <? 0) with true. cbv iota beta. unfold throw.
  destruct s as [[data pos script trace] entries bw tb pg]. reflexivity.
Qed.

Lemma format_seek_failure_witness :
  formatOverlayPartition (2 ^ 63) MiB sampleClock (newBlockDevice (blankDevice []))
  = (Thrown SeekFailure, newBlockDevice (blankDevice [])).
Proof.
  apply (format_seek_failure (2 ^ 63) MiB sampleClock
           (newBlockDevice (blankDevice []))).
  reflexivity.
Defined.

(** ** Zero fill *)

Lemma writeZeros_loop_chunks (n : nat) :
  forall i size s,
    ideal s ->
    n = Z.to_nat ((size - i + CHUNK_SIZE - 1) / CHUNK_SIZE) ->
    exists s' tr,
      writeZeros_loop n i size s = (Done tt, s')
      /\ dev_trace (m_fd s') = tr ++ dev_trace (m_fd s)
      /\ length tr = n
      /\ Forall (fun b => 0 < extent b <= CHUNK_SIZE) tr
      /\ concat (rev tr) = zeros (size - i)
      /\ exists rep, progress s' = rep ++ progress s /\ length rep = n.
Proof.
  unfold CHUNK_SIZE.
  induction n as [|n IH]; intros i size s Hs Hn.
  - exists s, []. cbn [writeZeros_loop ret]. repeat split; auto.
    + assert (size - i <= 0).
      { destruct (Z.le_gt_cases (size - i) 0) as [|Hpos]; [assumption|].
        assert (1 <= (size - i + 512 - 1) / 512)
          by (apply Z.div_le_lower_bound; lia).
        lia. }
      rewrite zeros_nonpos by assumption. reflexivity.
    + exists []. auto.
  - assert (Hpos : 0 < size - i).
    { destruct (Z.lt_ge_cases 0 (size - i)) as [|Hle]; [assumption|].
      assert ((size - i + 512 - 1) / 512 < 1)
        by (apply Z.div_lt_upper_bound; lia).
      lia. }
    assert (Hrest : n = Z.to_nat ((size - (i + 512) + 512 - 1) / 512)).
    { replace (size - i + 512 - 1) with (size - (i + 512) + 512 - 1 + 1 * 512)
        in Hn by lia.
      rewrite Z.div_add in Hn by lia.
      assert (-1 <= (size - (i + 512) + 512 - 1) / 512)
        by (apply Z.div_le_lower_bound; lia).
      lia. }
    set (chunk := Z.min 512 (size - i)).
    assert (Hchunk : 0 < chunk <= 512) by (subst chunk; lia).
    assert (Hsplit : zeros (size - i) = zeros chunk ++ zeros (size - (i + 512))).
    { subst chunk. destruct (Z.le_gt_cases 512 (size - i)) as [Hbig|Hsmall].
      - rewrite Z.min_l by lia.
        rewrite <- zeros_add by lia. f_equal. lia.
      - rewrite Z.min_r by lia.
        rewrite (zeros_nonpos (size - (i + 512))) by lia.
        rewrite app_nil_r. reflexivity. }
    cbn [writeZeros_loop]. change CHUNK_SIZE with 512. fold chunk.
    unfold bind at 1. unfold syscall.
    rewrite (written_sys_write (zeros chunk) (m_fd s) Hs).
    assert (Hext : extent (zeros chunk) = chunk) by (apply extent_zeros; lia).
    rewrite Hext.
    destruct (Z.ltb_spec chunk 0) as [|_]; [lia|].
    unfold bind at 1. unfold countAndReport.
    match goal with
    | |- context [writeZeros_loop n _ _ ?s1] =>
        destruct (IH (i + 512) size s1 eq_refl Hrest)
          as (s' & tr & E & T & L & F & C & rep & R & LR)
    end.
    exists s', (tr ++ [zeros chunk]). split; [exact E|].
    cbn [m_fd dev_trace progress] in T, R.
    split; [rewrite T, <- app_assoc; reflexivity|].
    split; [rewrite length_app; simpl; lia|].
    split.
    { apply Forall_app. split; [exact F|].
      constructor; [rewrite Hext; exact Hchunk|constructor]. }
    split.
    { rewrite rev_app_distr. cbn [rev app concat]. rewrite C, Hsplit.
      reflexivity. }
    eexists (rep ++ [_]). split.
    + rewrite R, <- app_assoc. reflexivity.
    + rewrite length_app. simpl. lia.
Qed.

(** On a device that transfers everything, and for a [size] of at
    most [2^64 - 512], [writeZeros] writes [size] zero bytes in
    [ceil (size / 512)] calls, none of them empty or longer than 512
    bytes, and reports progress once per call. *)
Theorem writeZeros_chunks (size : Z) (s : BlockDevice) :
  ideal s ->
  size <= 2 ^ 64 - CHUNK_SIZE ->
  exists s' tr rep,
    writeZeros size s = (Done tt, s')
    /\ dev_trace (m_fd s') = tr ++ dev_trace (m_fd s)
    /\ concat (rev tr) = zeros size
    /\ Z.of_nat (length tr) = Z.max 0 ((size + CHUNK_SIZE - 1) / CHUNK_SIZE)
    /\ Forall (fun b => 0 < extent b <= CHUNK_SIZE) tr
    /\ progress s' = rep ++ progress s
    /\ length rep = length tr.
Proof.
  intros Hs Hsize. rewrite (writeZeros_bounded size Hsize).
  destruct (writeZeros_loop_chunks
              (Z.to_nat ((size + CHUNK_SIZE - 1) / CHUNK_SIZE)) 0 size s Hs)
    as (s' & tr & E & T & L & F & C & rep & R & LR).
  { f_equal. f_equal. lia. }
  exists s', tr, rep.
  split; [exact E|]. split; [exact T|].
  split; [rewrite C; f_equal; lia|].
  split; [rewrite L; lia|].
  split; [exact F|]. split; [exact R|]. lia.
Qed.

Lemma writeZeros_chunks_witness :
  exists s' tr rep,
    writeZeros 1300 (newBlockDevice (blankDevice [])) = (Done tt, s')
    /\ dev_trace (m_fd s') = tr ++ dev_trace (m_fd (newBlockDevice (blankDevice [])))
    /\ concat (rev tr) = zeros 1300
    /\ Z.of_nat (length tr) = Z.max 0 ((1300 + CHUNK_SIZE - 1) / CHUNK_SIZE)
    /\ Forall (fun b => 0 < extent b <= CHUNK_SIZE) tr
    /\ progress s' = rep ++ progress (newBlockDevice (blankDevice []))
    /\ length rep = length tr.
Proof.
  apply (writeZeros_chunks 1300 (newBlockDevice (blankDevice []))).
  - reflexivity.
  - vm_compute. discriminate.
Defined.

(** When the first write of [writeZeros] fails, it throws a write
    failure: nothing is written or counted, and no progress is
    reported. *)
Theorem writeZeros_failed_write (size c : Z) (rest : list Z) (s : BlockDevice) :
  0 < size -> c < 0 ->
  dev_script (m_fd s) = c :: rest ->
  exists s',
    writeZeros size s = (Thrown WriteFailure, s')
    /\ dev_data (m_fd s') = dev_data (m_fd s)
    /\ dev_trace (m_fd s') = dev_trace (m_fd s)
    /\ m_bytesWritten s' = m_bytesWritten s
    /\ progress s' = progress s.
Proof.
  intros Hsize Hc Hscript. unfold writeZeros, CHUNK_SIZE.
  destruct (size <=? 2 ^ 64 - 512).
  - assert (Hn : 1 <= (size + 512 - 1) / 512)
      by (apply Z.div_le_lower_bound; lia).
    destruct (Z.to_nat ((size + 512 - 1) / 512)) as [|n] eqn:En; [lia|].
    cbn [writeZeros_loop]. unfold bind, syscall, sys_write, transfer.
    rewrite Hscript.
    destruct (Z.ltb_spec c 0) as [_|]; [|lia].
    change (-1 <? 0) with true. cbv iota beta. unfold throw.
    eexists. split; [reflexivity|]. repeat split.
  - rewrite Hscript. cbn [length writeZeros_endless].
    unfold bind, syscall, sys_write, transfer.
    rewrite Hscript.
    destruct (Z.ltb_spec c 0) as [_|]; [|lia].
    change (-1 <? 0) with true. cbv iota beta. unfold throw.
    eexists. split; [reflexivity|]. repeat split.
Qed.

Lemma writeZeros_failed_write_witness :
  exists s',
    writeZeros 1024 (newBlockDevice (blankDevice [-1])) = (Thrown WriteFailure, s')
    /\ dev_data (m_fd s') = dev_data (m_fd (newBlockDevice (blankDevice [-1])))
    /\ dev_trace (m_fd s') = dev_trace (m_fd (newBlockDevice (blankDevice [-1])))
    /\ m_bytesWritten s' = m_bytesWritten (newBlockDevice (blankDevice [-1]))
    /\ progress s' = progress (newBlockDevice (blankDevice [-1])).
Proof.
  apply (writeZeros_failed_write 1024 (-1) [] (newBlockDevice (blankDevice [-1])));
    reflexivity.
Defined.

(** ** Writing in sequence, whatever the device does *)

Lemma sequential_ret {A} (a : A) : sequential (ret a).
Proof.
  intros s r s' E. injection E as <- <-.
  repeat split; auto; try lia. exists []. reflexivity.
Qed.

Lemma sequential_throw {A} (e : Error) :
  e = SeekFailure \/ e = WriteFailure -> sequential (@throw A e).
Proof.
  intros He s r s' E. injection E as <- <-.
  repeat split; auto; try lia. exists []. reflexivity.
Qed.

Lemma sequential_bind {A B} (m : M A) (k : A -> M B) :
  sequential m -> (forall a, sequential (k a)) -> sequential (bind m k).
Proof.
  intros Hm Hk s r s' E. unfold bind in E.
  destruct (m s) as [[a|e|] s1] eqn:E1.
  - destruct (Hm _ _ _ E1) as (N1 & P1 & D1 & (tr1 & T1) & _).
    destruct (Hk a _ _ _ E) as (N2 & P2 & D2 & (tr2 & T2) & O2).
    split; [congruence|]. split; [lia|]. split; [|split; [|exact O2]].
    + intros x Hx. rewrite D2 by lia. apply D1. lia.
    + exists (tr2 ++ tr1). rewrite T2, T1, app_assoc. reflexivity.
  - injection E as <- <-.
    destruct (Hm _ _ _ E1) as (N1 & P1 & D1 & T1 & O1).
    repeat split; auto.
  - destruct (Hm _ _ _ E1) as (_ & _ & _ & _ & []).
Qed.

Lemma sequential_sys_write (buf : list Z) : sequential (syscall (sys_write buf)).
Proof.
  intros s r s' E. unfold syscall, sys_write in E.
  set (len := transfer (dev_script (m_fd s)) (Z.of_nat (length buf))) in E.
  destruct (Z.ltb_spec len 0) as [Hneg|Hnn]; injection E as <- <-;
    cbn [m_entries m_fd dev_pos dev_data dev_trace].
  - repeat split; auto; try lia. exists []. reflexivity.
  - split; [reflexivity|]. split; [lia|]. split; [|split; [|exact I]].
    + intros a Ha. unfold store.
      destruct (Z.leb_spec (dev_pos (m_fd s)) a) as [Hle|]; [|reflexivity].
      destruct (Z.ltb_spec a (dev_pos (m_fd s)
                              + Z.of_nat (length (firstn (Z.to_nat len) buf))))
        as [Hlt|]; [|reflexivity].
      rewrite length_firstn in Hlt. lia.
    + eexists [_]. reflexivity.
Qed.

Lemma sequential_countAndReport (len : Z) : sequential (countAndReport len).
Proof.
  intros s r s' E. injection E as <- <-.
  cbn [m_entries m_fd]. repeat split; auto; try lia. exists []. reflexivity.
Qed.

Lemma sequential_writeBytes (buf : list Z) : sequential (writeBytes buf).
Proof.
  unfold writeBytes. apply sequential_bind; [apply sequential_sys_write|].
  intros len. destruct (negb (len =? extent buf)).
  - apply sequential_throw. auto.
  - apply sequential_countAndReport.
Qed.

Lemma sequential_writeZeros_loop (n : nat) :
  forall i size, sequential (writeZeros_loop n i size).
Proof.
  induction n as [|n IH]; intros i size; cbn [writeZeros_loop].
  - apply sequential_ret.
  - apply sequential_bind; [apply sequential_sys_write|].
    intros len. destruct (len <? 0).
    + apply sequential_throw. auto.
    + apply sequential_bind; [apply sequential_countAndReport|].
      intros _. apply IH.
Qed.

Lemma sequential_writeZeros (size : Z) :
  size <= 2 ^ 64 - CHUNK_SIZE -> sequential (writeZeros size).
Proof.
  intros H. rewrite (writeZeros_bounded size H).
  apply sequential_writeZeros_loop.
Qed.

Lemma sequential_writeChain (n : nat) :
  forall cluster, sequential (writeChain n cluster).
Proof.
  induction n as [|n IH]; intros cluster; cbn [writeChain].
  - apply sequential_ret.
  - apply sequential_bind; [apply sequential_writeBytes|]. intros _. apply IH.
Qed.

Ltac sequential_steps :=
  repeat (apply sequential_bind;
          [first [apply sequential_writeBytes
                 | apply sequential_writeZeros; zeros_fit
                 | apply sequential_writeChain]
          | intros _]);
  first [apply sequential_writeBytes
        | apply sequential_writeZeros; zeros_fit
        | apply sequential_ret].

Lemma sequential_writeBootSector (size : Z) (c : Clock) :
  sequential (writeBootSector size c).
Proof. unfold writeBootSector. sequential_steps. Qed.

Lemma sequential_writeReserved (size : Z) (c : Clock) :
  sequential (writeReserved size c).
Proof.
  unfold writeReserved.
  apply sequential_bind; [apply sequential_writeBootSector|intros _].
  do 6 (apply sequential_bind;
        [first [apply sequential_writeBytes
               | apply sequential_writeZeros; zeros_fit]
        |intros _]).
  apply sequential_bind; [apply sequential_writeBootSector|intros _].
  apply sequential_writeZeros; zeros_fit.
Qed.

Lemma sequential_writeFat (size : Z) :
  fatUsed size <= SECTOR_SIZE * fatlength size ->
  SECTOR_SIZE * fatlength size <= 2 ^ 64 - CHUNK_SIZE ->
  sequential (writeFat size).
Proof.
  intros Hroom Hfit.
  destruct (fatPadding_fits size Hroom Hfit) as [E B].
  unfold writeFat. rewrite E. sequential_steps.
Qed.

Lemma sequential_writeData (size : Z) (c : Clock) :
  MiB <= size < 2 ^ 41 ->
  fatUsed size <= SECTOR_SIZE * fatlength size ->
  sequential (writeData size c).
Proof.
  intros H Hroom. destruct (zero_fills_fit size c H) as (Hfat & Hdir & Hfile).
  unfold writeData. change (Z.to_nat NR_FATS) with 2%nat. cbn [repeatM].
  apply sequential_bind.
  { apply sequential_bind; [apply sequential_writeFat; assumption|intros _].
    apply sequential_bind; [apply sequential_writeFat; assumption|intros _].
    apply sequential_ret. }
  intros _. sequential_steps.
Qed.

(** For a partition of 1 MiB to 2 TiB whose FAT has room for the
    cluster chain, whatever the device returns to the seek and to the
    writes, [formatOverlayPartition] leaves the entry list alone, changes
    no byte below the partition offset, only adds to what has been
    written, and ends normally or with a seek or write failure. *)
Theorem format_never_writes_below (offset size : Z) (c : Clock)
        (s s' : BlockDevice) (r : Outcome unit) :
  MiB <= size < 2 ^ 41 ->
  fatUsed size <= SECTOR_SIZE * fatlength size ->
  formatOverlayPartition offset size c s = (r, s') ->
  m_entries s' = m_entries s
  /\ (forall a, a < i64 offset -> dev_data (m_fd s') a = dev_data (m_fd s) a)
  /\ (exists tr, dev_trace (m_fd s') = tr ++ dev_trace (m_fd s))
  /\ (r = Done tt \/ r = Thrown SeekFailure \/ r = Thrown WriteFailure).
Proof.
  intros H Hroom E. unfold formatOverlayPartition, seekto in E.
  unfold bind at 1 2 in E. unfold syscall, sys_lseek in E.
  destruct (Z.ltb_spec (i64 offset) 0) as [Hneg|Hnn].
  - change (-1 <? 0) with true in E. cbv iota beta in E.
    injection E as <- <-. cbn [m_entries m_fd dev_data dev_trace].
    repeat split; auto. exists []. reflexivity.
  - destruct (seekRefused (dev_script (m_fd s))).
    + change (-1 <? 0) with true in E. cbv iota beta in E.
      injection E as <- <-. cbn [m_entries m_fd dev_data dev_trace].
      repeat split; auto. exists []. reflexivity.
    + destruct (Z.ltb_spec (i64 offset) 0) as [|_]; [lia|].
      cbv iota beta in E. unfold ret in E.
      unfold bind at 1 in E. unfold setCounters in E.
      assert (Hseq : sequential (writeReserved size c ;; writeData size c)).
      { apply sequential_bind; [apply sequential_writeReserved|intros _].
        apply sequential_writeData; assumption. }
      destruct (Hseq _ _ _ E) as (N & P & D & T & O).
      cbn [m_entries m_fd dev_pos dev_data dev_trace] in N, P, D, T.
      split; [exact N|]. split; [|split; [exact T|]].
      * intros a Ha. apply D. lia.
      * destruct r as [[]|e|]; [auto| |destruct O].
        destruct O as [-> | ->]; auto.
Qed.

Lemma format_never_writes_below_witness :
  let s := newBlockDevice (blankDevice [90; 129; 100; -1]) in
  let run := formatOverlayPartition MiB MiB sampleClock s in
  m_entries (snd run) = m_entries s
  /\ (forall a, a < i64 MiB -> dev_data (m_fd (snd run)) a = dev_data (m_fd s) a)
  /\ (exists tr, dev_trace (m_fd (snd run)) = tr ++ dev_trace (m_fd s))
  /\ (fst run = Done tt \/ fst run = Thrown SeekFailure
      \/ fst run = Thrown WriteFailure).
Proof.
  cbv zeta.
  apply (format_never_writes_below MiB MiB sampleClock).
  - vm_compute. split; [discriminate|reflexivity].
  - vm_compute. discriminate.
  - apply surjective_pairing.
Defined.

(** ** A FAT without room for the chain *)



(** The same zero fill ends when a write fails, and only then: here the
    third one. *)
Example writeZeros_endless_failed_write :
  fst (writeZeros (2 ^ 64 - 4) (newBlockDevice (blankDevice [512; 100; -1])))
  = Thrown WriteFailure
  /\ physicallyWritten
       (m_fd (snd (writeZeros (2 ^ 64 - 4)
                     (newBlockDevice (blankDevice [512; 100; -1])))))
     = 612.
Proof. split; vm_compute; reflexivity. Qed.

(** A device that refuses the seek makes [read] throw a seek failure. *)
Example read_seek_refused :
  read (newBlockDevice (blankDevice [SEEK_REFUSED]))
  = (Thrown SeekFailure, newBlockDevice (blankDevice [])).
Proof. reflexivity. Qed.



(** ** The time field *)

(** For a valid time of day the two time bytes of the directory entries
    read back as the hour, the minute and the seconds halved and rounded
    up. *)
Theorem fatTime_decode (c : Clock) :
  0 <= second c < 60 -> 0 <= minute c < 60 -> 0 <= hour c < 24 ->
  let t := tlo c + 256 * thi c in
  Z.shiftr t 11 = hour c
  /\ Z.land (Z.shiftr t 5) 63 = minute c
  /\ Z.land t 31 = (second c + 1) / 2.
Proof.
  intros Hs Hm Hh.
  assert (All : forallb (fun h => forallb (fun m => forallb (timeDecodes h m)
                           (zrange 0 60)) (zrange 0 60)) (zrange 0 24) = true)
    by (vm_compute; reflexivity).
  pose proof (forallb_zrange _ _ _ All (hour c) ltac:(simpl; lia)) as A1.
  pose proof (forallb_zrange _ _ _ A1 (minute c) ltac:(simpl; lia)) as A2.
  pose proof (forallb_zrange _ _ _ A2 (second c) ltac:(simpl; lia)) as A3.
  unfold timeDecodes in A3.
  apply andb_prop in A3. destruct A3 as [A3 A33].
  apply andb_prop in A3. destruct A3 as [A31 A32].
  apply Z.eqb_eq in A31, A32, A33.
  unfold tlo, thi, fatTime in *. cbn [second minute hour] in A31, A32, A33.
  cbv zeta. auto.
Qed.

Lemma fatTime_decode_witness :
  let t := tlo sampleClock + 256 * thi sampleClock in
  Z.shiftr t 11 = hour sampleClock
  /\ Z.land (Z.shiftr t 5) 63 = minute sampleClock
  /\ Z.land t 31 = (second sampleClock + 1) / 2.
Proof.
  apply (fatTime_decode sampleClock); vm_compute; split;
    discriminate || reflexivity.
Defined.

(** ** The entry *)

(** The entry assembled by [addPartition] has 16 bytes: boot indicator
    0, type 0x0b, and the LBA and sector count fields hold the low 32
    bits of [offset / 512] and [size / 512]; it is never an empty
    slot. *)
Theorem buildEntry_fields (NH NS offset size : Z) :
  let e := buildEntry NH NS offset size in
  length e = 16%nat
  /\ nth 0 e 0 = 0
  /\ nth 4 e 0 = 0x0b
  /\ entryLba e = (offset / SECTOR_SIZE) mod 2 ^ 32
  /\ entryCount e = (size / SECTOR_SIZE) mod 2 ^ 32
  /\ isEmpty e = false.
Proof.
  cbv zeta.
  destruct (buildEntry_lba_count NH NS offset size) as [E1 E2].
  split; [reflexivity|]. split; [reflexivity|]. split; [reflexivity|].
  split; [exact E1|]. split; [exact E2|].
  apply buildEntry_not_empty.
Qed.

(** ** Reading the table *)

(** On a device that transfers everything, [read] appends the non-empty
    slots in on-disk order and changes nothing on the device; a table of
    four all-zero slots adds no entry. *)
Theorem read_yields_table (s : BlockDevice) :
  ideal s ->
  exists s',
    read s = (Done tt, s')
    /\ m_entries s' = m_entries s ++ onDisk (dev_data (m_fd s))
    /\ dev_data (m_fd s') = dev_data (m_fd s)
    /\ ((forall i, 0 <= i < 4 -> isEmpty (slot (dev_data (m_fd s)) i) = true) ->
        m_entries s' = m_entries s).
Proof.
  intros Hs. eexists. split; [apply (read_ideal s Hs)|].
  cbn [m_entries m_fd dev_data].
  split; [reflexivity|]. split; [reflexivity|].
  intros Hz. unfold onDisk. cbn [map filter].
  rewrite (Hz 0), (Hz 1), (Hz 2), (Hz 3) by lia.
  cbn [negb]. apply app_nil_r.
Qed.

Lemma read_yields_table_witness :
  exists s',
    read (newBlockDevice onePartition) = (Done tt, s')
    /\ m_entries s'
       = m_entries (newBlockDevice onePartition)
         ++ onDisk (dev_data (m_fd (newBlockDevice onePartition)))
    /\ dev_data (m_fd s') = dev_data (m_fd (newBlockDevice onePartition))
    /\ ((forall i, 0 <= i < 4 ->
           isEmpty (slot (dev_data (m_fd (newBlockDevice onePartition))) i) = true) ->
        m_entries s' = m_entries (newBlockDevice onePartition)).
Proof.
  apply (read_yields_table (newBlockDevice onePartition)). reflexivity.
Defined.

(** ** A complete run of the formatter *)

Lemma dev_pos_mk da po sc tr : dev_pos (Build_Device da po sc tr) = po.
Proof. reflexivity. Qed.

Lemma dev_data_mk da po sc tr : dev_data (Build_Device da po sc tr) = da.
Proof. reflexivity. Qed.

Lemma m_entries_mk fd es bw tb pg :
  m_entries (Build_BlockDevice fd es bw tb pg) = es.
Proof. reflexivity. Qed.

Create Rewrite HintDb fields.
#[local] Hint Rewrite m_fd_mk m_bytesWritten_mk m_totalBytes_mk progress_mk
  dev_trace_mk dev_pos_mk dev_data_mk m_entries_mk : fields.

Lemma i64_small (x : Z) : 0 <= x < 2 ^ 63 -> i64 x = x.
Proof. intros H. unfold i64. rewrite Z.mod_small; lia. Qed.

(** Contents that agree on the table give the same table. *)
Lemma onDisk_ext (d d' : Z -> Z) :
  (forall a, PARTITION_ENTRY_OFFSET <= a
             < PARTITION_ENTRY_OFFSET + PARTITION_ENTRY_SIZE * MAX_PARTITIONS ->
             d' a = d a) ->
  onDisk d' = onDisk d.
Proof.
  intros H. unfold onDisk. f_equal.
  apply map_ext_in. intros i Hi. unfold slot, load.
  apply map_ext_in. intros k Hk. apply in_seq in Hk.
  apply H. unfold PARTITION_ENTRY_OFFSET, PARTITION_ENTRY_SIZE, MAX_PARTITIONS in *.
  change (Z.to_nat 16) with 16%nat in Hk.
  simpl in Hi. intuition; subst; lia.
Qed.

(** On a device that transfers everything, and for a partition of 1 MiB
    to 2 TiB whose FAT has room for the cluster chain, the formatter
    completes, leaves the file position at
    [offset + headerSize + fileZeros], and changes no byte outside the
    partition; when the partition begins after the first sector, the
    partition table reads as before. *)
Theorem format_stays_in_partition (offset size : Z) (c : Clock) (s : BlockDevice) :
  ideal s -> 0 <= offset < 2 ^ 63 ->
  MiB <= size < 2 ^ 41 ->
  fatUsed size <= SECTOR_SIZE * fatlength size ->
  exists s',
    formatOverlayPartition offset size c s = (Done tt, s')
    /\ dev_pos (m_fd s') = offset + headerSize size + fileZeros size
    /\ (forall a, a < offset \/ offset + size <= a ->
          dev_data (m_fd s') a = dev_data (m_fd s) a)
    /\ m_entries s' = m_entries s
    /\ (SECTOR_SIZE <= offset ->
        onDisk (dev_data (m_fd s')) = onDisk (dev_data (m_fd s))).
Proof.
  intros Hs Hoff H Hroom.
  pose proof (extent_stream size c H Hroom) as Hlen.
  destruct (layout_fits size H) as (F1 & _).
  assert (Hi : i64 offset = offset) by (apply i64_small; exact Hoff).
  rewrite (format_start offset size c s (ideal_seek s Hs)) by lia.
  rewrite Hi.
  match goal with
  | |- context [bind _ _ ?s0] =>
      destruct (emits_seq _ _ _ _ (emits_writeReserved size c)
                          (emits_writeData size c H Hroom) s0 Hs)
        as ([] & s' & tr & rep & E & I & T & C & P & _);
      assert (Hseq : sequential (writeReserved size c ;; writeData size c));
      [apply sequential_bind;
        [apply sequential_writeReserved
        |intros _; apply sequential_writeData; assumption]|];
      destruct (Hseq _ _ _ E) as (N & _ & D & _)
  end.
  autorewrite with fields in P, N, D.
  exists s'. split; [exact E|]. rewrite Hlen in P.
  split; [rewrite P; lia|].
  assert (Hout : forall a, a < offset \/ offset + size <= a ->
                   dev_data (m_fd s') a = dev_data (m_fd s) a)
    by (intros a Ha; apply D; lia).
  split; [exact Hout|]. split; [exact N|].
  unfold SECTOR_SIZE. intros Hfirst.
  apply onDisk_ext. intros a Ha.
  unfold PARTITION_ENTRY_OFFSET, PARTITION_ENTRY_SIZE, MAX_PARTITIONS in Ha.
  apply Hout. lia.
Qed.

Lemma format_stays_in_partition_witness :
  exists s',
    formatOverlayPartition MiB MiB sampleClock (newBlockDevice (blankDevice []))
      = (Done tt, s')
    /\ dev_pos (m_fd s') = MiB + headerSize MiB + fileZeros MiB
    /\ (forall a, a < MiB \/ MiB + MiB <= a ->
          dev_data (m_fd s') a
          = dev_data (m_fd (newBlockDevice (blankDevice []))) a)
    /\ m_entries s' = m_entries (newBlockDevice (blankDevice []))
    /\ (SECTOR_SIZE <= MiB ->
        onDisk (dev_data (m_fd s'))
        = onDisk (dev_data (m_fd (newBlockDevice (blankDevice []))))).
Proof.
  apply (format_stays_in_partition MiB MiB sampleClock
           (newBlockDevice (blankDevice [])));
    vm_compute; try reflexivity; try discriminate;
    split; discriminate || reflexivity.
Defined.

(** On the same conditions the bytes written number
    [headerSize + fileZeros]; the counter, reset at the start, ends on
    that number, which is the total handed to the progress sink after
    each of the writes. *)
Theorem format_complete_run (offset size : Z) (c : Clock) (s : BlockDevice) :
  ideal s -> 0 <= i64 offset ->
  MiB <= size < 2 ^ 41 ->
  fatUsed size <= SECTOR_SIZE * fatlength size ->
  exists s' rep,
    formatOverlayPartition offset size c s = (Done tt, s')
    /\ written (m_fd s')
       = written (m_fd s) ++ reservedArea size c ++ dataArea size c
    /\ physicallyWritten (m_fd s')
       = physicallyWritten (m_fd s) + (headerSize size + fileZeros size)
    /\ m_bytesWritten s' = m_totalBytes s'
    /\ m_totalBytes s' = headerSize size + fileZeros size
    /\ progress s' = rep ++ progress s
    /\ length rep = (length (dev_trace (m_fd s')) - length (dev_trace (m_fd s)))%nat
    /\ Forall (fun r => snd r = headerSize size + fileZeros size) rep.
Proof.
  intros Hs Hoff H Hroom.
  destruct (format_total_ideal offset size c s Hs Hoff H Hroom)
    as (s' & tr & rep & E & T & C & W & M & B & R & L & F).
  exists s', rep.
  split; [exact E|]. split.
  { unfold written. rewrite T, rev_app_distr, concat_app, C. reflexivity. }
  split; [exact W|]. split; [congruence|]. split; [exact M|].
  split; [exact R|]. split; [|exact F].
  rewrite T, length_app. lia.
Qed.

Lemma format_complete_run_witness :
  exists s' rep,
    formatOverlayPartition MiB MiB sampleClock (newBlockDevice (blankDevice []))
      = (Done tt, s')
    /\ written (m_fd s')
       = written (m_fd (newBlockDevice (blankDevice [])))
         ++ reservedArea MiB sampleClock ++ dataArea MiB sampleClock
    /\ physicallyWritten (m_fd s')
       = physicallyWritten (m_fd (newBlockDevice (blankDevice [])))
         + (headerSize MiB + fileZeros MiB)
    /\ m_bytesWritten s' = m_totalBytes s'
    /\ m_totalBytes s' = headerSize MiB + fileZeros MiB
    /\ progress s' = rep ++ progress (newBlockDevice (blankDevice []))
    /\ length rep
       = (length (dev_trace (m_fd s'))
          - length (dev_trace (m_fd (newBlockDevice (blankDevice [])))))%nat
    /\ Forall (fun r => snd r = headerSize MiB + fileZeros MiB) rep.
Proof.
  apply (format_complete_run MiB MiB sampleClock
           (newBlockDevice (blankDevice [])));
    vm_compute; try reflexivity; try discriminate;
    split; discriminate || reflexivity.
Defined.
